(** * bebrafun: the migration runner and the auth patch script

    Two Python scripts are embedded here:

    - [run_migration.py], which reads one SQL file, executes it on a
      PostgreSQL connection and prints three verification queries;
    - [prediction-market-frontend/fix-auth.py], which rewrites one block
      of [src/services/blockchainService.ts] with [re.sub].

    Python text ([str]) is a sequence of Unicode code points, so it is
    modelled as [list N].  The migration runner talks to a file system and
    to a database: both are parameters (a [world]), and a run yields the
    chronological list of the calls it made together with its exit code.
    The patch script is a function of the text of the one file it
    rewrites. *)

From Stdlib Require Import List String Ascii NArith ZArith Bool Lia.
From Stdlib Require Import DecimalString.
Import ListNotations.

Set Implicit Arguments.

(* ================================================================== *)
(** ** Python [str] *)

Module PyStr.

Definition str := list N.

(** Decoder for the UTF-8 bytes of a literal, so that the literals of the
    scripts can be written as they appear in the source. *)
Fixpoint utf8 (bs : list N) (need : nat) (acc : N) : str :=
  match bs with
  | [] => []
  | b :: bs' =>
      match need with
      | O =>
          if (b <? 128)%N then b :: utf8 bs' 0 0%N
          else if (b <? 224)%N then utf8 bs' 1 (b - 192)%N
          else if (b <? 240)%N then utf8 bs' 2 (b - 224)%N
          else utf8 bs' 3 (b - 240)%N
      | S k =>
          let acc' := (acc * 64 + (b - 128))%N in
          match k with
          | O => acc' :: utf8 bs' 0 0%N
          | S _ => utf8 bs' k acc'
          end
      end
  end.

Definition py (s : string) : str :=
  utf8 (map N_of_ascii (list_ascii_of_string s)) 0 0%N.

(** A literal of the source, decoded once and for all. *)
Notation "'lit' s" :=
  (ltac:(let v := eval vm_compute in (py s) in exact v))
  (at level 10, s at level 9, only parsing).

Definition nl : N := 10%N.

(** [Py_UNICODE_ISSPACE]: the characters [str.strip()] removes and the
    regular expression class [\s] accepts on [str] patterns. *)
Definition isspace (c : N) : bool :=
  ((9 <=? c) && (c <=? 13) || (28 <=? c) && (c <=? 32)
   || (c =? 133) || (c =? 160) || (c =? 5760)
   || (8192 <=? c) && (c <=? 8202)
   || (c =? 8232) || (c =? 8233) || (c =? 8239) || (c =? 8287)
   || (c =? 12288))%N.

Fixpoint eqb (a b : str) : bool :=
  match a, b with
  | [], [] => true
  | x :: a', y :: b' => (x =? y)%N && eqb a' b'
  | _, _ => false
  end.

(** [s.startswith(p)] *)
Fixpoint startswith (s p : str) : bool :=
  match p with
  | [] => true
  | y :: p' =>
      match s with
      | [] => false
      | x :: s' => (x =? y)%N && startswith s' p'
      end
  end.

(** [s.lstrip()], [s.rstrip()], [s.strip()] *)
Fixpoint lstrip (s : str) : str :=
  match s with
  | [] => []
  | c :: s' => if isspace c then lstrip s' else s
  end.

Definition rstrip (s : str) : str := rev (lstrip (rev s)).

Definition strip (s : str) : str := rstrip (lstrip s).

(** [s.split(sep)] for a one-character separator: always at least one
    piece. *)
Fixpoint split (sep : N) (s : str) : list str :=
  match s with
  | [] => [[]]
  | c :: s' =>
      if (c =? sep)%N then [] :: split sep s'
      else match split sep s' with
           | h :: t => (c :: h) :: t
           | [] => [[c]]
           end
  end.

(** [sep.join(pieces)] *)
Fixpoint join (sep : str) (pieces : list str) : str :=
  match pieces with
  | [] => []
  | [p] => p
  | p :: rest => p ++ sep ++ join sep rest
  end.

(** [s * n] *)
Fixpoint times (s : str) (n : nat) : str :=
  match n with
  | O => []
  | S n' => s ++ times s n'
  end.

(** [str(z)] for an [int] *)
Definition of_Z (z : Z) : str := py (NilZero.string_of_int (Z.to_int z)).

Definition of_nat (n : nat) : str := of_Z (Z.of_nat n).

End PyStr.

Import PyStr.

(* ================================================================== *)
(** ** run_migration.py *)

Module Migration.

(** *** Values, exceptions, events *)

(** What a psycopg2 row can hold, as far as the f-strings of the script
    are concerned: [None], an [int], a [str], or any other object, known
    by the text [format] gives for it (a [datetime], a [Decimal], ...). *)
Inductive value :=
| VNone
| VInt (z : Z)
| VStr (s : str)
| VObj (shown : str).

Definition row := list value.

(** [f"{v}"] *)
Definition format (v : value) : str :=
  match v with
  | VNone => lit "None"
  | VInt z => of_Z z
  | VStr s => s
  | VObj shown => shown
  end.

(** The three [except] clauses tell exceptions apart by class only. *)
Inductive exn_class :=
| FileNotFoundError
| Psycopg2Error
| OtherException.

Record exn := Exn { exn_class_of : exn_class; exn_msg : str }.

(** The calls the script makes on its environment, with the answer. *)
Inductive event :=
| Print (line : str)
| OpenRead (path : str) (answer : exn + str)
| Connect (answer : option exn)
| SetAutocommit (b : bool)
| NewCursor
| Execute (sql : str) (answer : exn + option (list row))
| Fetchall (answer : exn + list row)
| Fetchone (answer : exn + option row)
| CursorClose
| ConnClose.

Inductive result (A : Type) :=
| Ok (a : A)
| Raise (e : exn)
| SystemExit (code : Z).

Arguments Ok {A} a.
Arguments Raise {A} e.
Arguments SystemExit {A} code.

(** *** Observations on a list of events *)

(** The SQL texts handed to [cursor.execute], in order. *)
Definition executed (t : list event) : list str :=
  flat_map (fun e => match e with Execute q _ => [q] | _ => [] end) t.

Definition is_connect (e : event) : bool :=
  match e with Connect _ => true | _ => false end.

Definition is_fetchone (e : event) : bool :=
  match e with Fetchone _ => true | _ => false end.

(** The number of calls of [psycopg2.connect]. *)
Definition connections (t : list event) : nat :=
  List.length (filter is_connect t).

(** The lines a [for status, count in rows] loop prints before it ends
    or stops at a row that does not unpack, and the row it stops at. *)
Fixpoint counts_lines (rows : list row) : list str :=
  match rows with
  | [a; b] :: rows' =>
      (lit "  " ++ format a ++ lit ": " ++ format b) :: counts_lines rows'
  | _ => []
  end.

Fixpoint counts_stop (rows : list row) : option row :=
  match rows with
  | [] => None
  | [_; _] :: rows' => counts_stop rows'
  | r :: _ => Some r
  end.

Section Runner.

(** The database server: its states, and the connection parameters.
    [DB_CONFIG] (host, port, user, password, database) stays abstract:
    no property depends on the values, and the credentials of the
    source are not reproduced. *)
Variable db : Type.
Variable config : Type.
Variable DB_CONFIG : config.

(** The environment of one run: the file system as [open(...).read()]
    sees it, [psycopg2.connect], and the server's answer to a batch of
    SQL (the new server state and the result set, if the last statement
    has one). *)
Record world := World {
  fs_read : str -> exn + str;
  db_connect : config -> exn + db;
  db_execute : db -> str -> exn + (db * option (list row))
}.

Variable w : world.

(** Process state: the open session, its autocommit flag, and the
    result set the cursor holds. *)
Record state := State {
  session : option db;
  autocommit : bool;
  pending : option (list row)
}.

Definition initial : state :=
  {| session := None; autocommit := false; pending := None |}.

(** State, exceptions, and the chronological list of events. *)
Definition M (A : Type) : Type := state -> list event * result A * state.

Definition ret {A} (a : A) : M A := fun s => ([], Ok a, s).

Definition bind {A B} (m : M A) (k : A -> M B) : M B :=
  fun s =>
    match m s with
    | (t1, Ok a, s1) =>
        match k a s1 with
        | (t2, r, s2) => (t1 ++ t2, r, s2)
        end
    | (t1, Raise e, s1) => (t1, Raise e, s1)
    | (t1, SystemExit c, s1) => (t1, SystemExit c, s1)
    end.

Definition raise {A} (e : exn) : M A := fun s => ([], Raise e, s).

Definition emit (e : event) : M unit := fun s => ([e], Ok tt, s).

(** [try: body except Exception as e: handler e]; [SystemExit] is not
    an [Exception] and passes through. *)
Definition try_except {A} (body : M A) (handler : exn -> M A) : M A :=
  fun s =>
    match body s with
    | (t1, Raise e, s1) =>
        match handler e s1 with
        | (t2, r, s2) => (t1 ++ t2, r, s2)
        end
    | other => other
    end.


Notation "x <- m ;; k" := (bind m (fun x => k))
  (at level 61, m at next level, right associativity).
Notation "m ;;; k" := (bind m (fun _ => k))
  (at level 61, right associativity).

(** *** The calls of the script *)

Definition print (line : str) : M unit := emit (Print line).

(** [with open(path, 'r', encoding='utf-8') as f: f.read()] *)
Definition open_read (path : str) : M str :=
  fun s =>
    match fs_read w path with
    | inl e => ([OpenRead path (inl e)], Raise e, s)
    | inr text => ([OpenRead path (inr text)], Ok text, s)
    end.

(** [psycopg2.connect] on the configuration: a new session, autocommit
    off. *)
Definition connect (cfg : config) : M unit :=
  fun s =>
    match db_connect w cfg with
    | inl e => ([Connect (Some e)], Raise e, s)
    | inr d =>
        ([Connect None], Ok tt,
         {| session := Some d; autocommit := false; pending := None |})
    end.

(** [conn.autocommit = b] *)
Definition set_autocommit (b : bool) : M unit :=
  fun s =>
    ([SetAutocommit b], Ok tt,
     {| session := session s; autocommit := b; pending := pending s |}).

(** [conn.cursor()] *)
Definition conn_cursor : M unit :=
  fun s =>
    ([NewCursor], Ok tt,
     {| session := session s; autocommit := autocommit s;
        pending := None |}).

(** [cursor.execute(sql)] *)
Definition execute (sql : str) : M unit :=
  fun s =>
    match session s with
    | None =>
        ([], Raise (Exn Psycopg2Error (lit "connection already closed")), s)
    | Some d =>
        match db_execute w d sql with
        | inl e => ([Execute sql (inl e)], Raise e, s)
        | inr (d', rs) =>
            ([Execute sql (inr rs)], Ok tt,
             {| session := Some d'; autocommit := autocommit s;
                pending := rs |})
        end
    end.

Definition no_results : exn :=
  Exn Psycopg2Error (lit "no results to fetch").

(** [cursor.fetchall()] *)
Definition fetchall : M (list row) :=
  fun s =>
    match pending s with
    | None => ([Fetchall (inl no_results)], Raise no_results, s)
    | Some rows =>
        ([Fetchall (inr rows)], Ok rows,
         {| session := session s; autocommit := autocommit s;
            pending := Some [] |})
    end.

(** [cursor.fetchone()] *)
Definition fetchone : M (option row) :=
  fun s =>
    match pending s with
    | None => ([Fetchone (inl no_results)], Raise no_results, s)
    | Some [] => ([Fetchone (inr None)], Ok None, s)
    | Some (r :: rest) =>
        ([Fetchone (inr (Some r))], Ok (Some r),
         {| session := session s; autocommit := autocommit s;
            pending := Some rest |})
    end.

(** [cursor.close()] and [conn.close()] *)
Definition cursor_close : M unit :=
  fun s =>
    ([CursorClose], Ok tt,
     {| session := session s; autocommit := autocommit s;
        pending := None |}).

Definition conn_close : M unit :=
  fun s =>
    ([ConnClose], Ok tt,
     {| session := None; autocommit := autocommit s;
        pending := pending s |}).

(** [sys.exit(code)] *)
Definition sys_exit {A} (code : Z) : M A :=
  fun s => ([], SystemExit code, s).

(** [for x in xs: body x] *)
Fixpoint for_each {A} (xs : list A) (body : A -> M unit) : M unit :=
  match xs with
  | [] => ret tt
  | x :: xs' => body x ;;; for_each xs' body
  end.

(** [status, count = r]: a [ValueError] unless [r] has two items. *)
Definition unpack_error (r : row) : exn :=
  Exn OtherException
    (if (2 <? List.length r)%nat
     then lit "too many values to unpack (expected 2)"
     else lit "not enough values to unpack (expected 2, got "
          ++ of_nat (List.length r) ++ lit ")").

Definition unpack2 (r : row) : M (value * value) :=
  match r with
  | [a; b] => ret (a, b)
  | _ => raise (unpack_error r)
  end.

(** [r[i]]: an [IndexError] past the end. *)
Definition index_error : exn :=
  Exn OtherException (lit "tuple index out of range").

Definition getitem (r : row) (i : nat) : M value :=
  match nth_error r i with
  | Some v => ret v
  | None => raise index_error
  end.

(** *** The script *)

Definition migration_file : str :=
  lit "C:\Users\mormeli\.gemini\antigravity\scratch\bebrafun\prediction-market\migrations\012_add_admin_user.sql".

Definition duels_query : str :=
  lit "SELECT status, COUNT(*) FROM duels GROUP BY status;".

Definition markets_query : str :=
  lit "SELECT status, COUNT(*) FROM markets GROUP BY status;".

Definition admin_query : str :=
  lit "
        SELECT au.id, au.role, u.wallet_address, au.created_at
        FROM admin_users au
        JOIN users u ON u.id = au.user_id
        WHERE u.wallet_address = 'ARytv9UPs8ajtsHboVgtVJDwz1u7VrHTfDj8qERFrcJE';
    ".

(** The comment filter of the script: the lines that do not start,
    after stripping, with two dashes. *)
Definition sql_lines (sql_content : str) : list str :=
  filter (fun line => negb (startswith (strip line) (lit "--")))
         (split nl sql_content).

Definition sql_clean (sql_content : str) : str :=
  join [nl] (sql_lines sql_content).

Definition rule : str := times (lit "=") 60.

Definition not_found_warning : str := lit "  ❌ Admin user not found!".

(** [for status, count in rows: print(f"  {status}: {count}")] *)
Definition print_counts (rows : list row) : M unit :=
  for_each rows (fun r =>
    sc <- unpack2 r ;;
    print (lit "  " ++ format (fst sc) ++ lit ": " ++ format (snd sc))).

(** The [if admin_result: ... else: ...] statement; a tuple is true
    when it is not empty. *)
Definition report_admin (admin_result : option row) : M unit :=
  match admin_result with
  | Some ((_ :: _) as r) =>
      v0 <- getitem r 0 ;;
      print (lit "  ID: " ++ format v0) ;;;
      v1 <- getitem r 1 ;;
      print (lit "  Role: " ++ format v1) ;;;
      v2 <- getitem r 2 ;;
      print (lit "  Wallet: " ++ format v2) ;;;
      v3 <- getitem r 3 ;;
      print (lit "  Created: " ++ format v3)
  | _ => print not_found_warning
  end.

(** The body of the [try] statement. *)
Definition try_body : M unit :=
  print (lit "📖 Reading migration file...") ;;;
  sql_content <- open_read migration_file ;;
  let sql_clean := sql_clean sql_content in
  print (lit "🔌 Connecting to Railway database...") ;;;
  connect DB_CONFIG ;;;
  set_autocommit true ;;;
  conn_cursor ;;;
  print (lit "🚀 Executing migration...") ;;;
  print rule ;;;
  execute sql_content ;;;
  print (lit "✅ Migration executed successfully!") ;;;
  print rule ;;;
  print (nl :: lit "📊 Verification Results:") ;;;
  print (times (lit "-") 60) ;;;
  execute duels_query ;;;
  duels_result <- fetchall ;;
  print (nl :: lit "🥊 Duels by status:") ;;;
  print_counts duels_result ;;;
  execute markets_query ;;;
  markets_result <- fetchall ;;
  print (nl :: lit "📈 Markets by status:") ;;;
  print_counts markets_result ;;;
  execute admin_query ;;;
  admin_result <- fetchone ;;
  print (nl :: lit "👤 Admin user:") ;;;
  report_admin admin_result ;;;
  print (nl :: rule) ;;;
  print (lit "✅ All done!") ;;;
  cursor_close ;;;
  conn_close.

Definition not_found_diagnostic : str :=
  lit "❌ Migration file not found: " ++ migration_file.

(** The three [except] clauses, in the order of the source. *)
Definition handler (e : exn) : M unit :=
  match exn_class_of e with
  | FileNotFoundError => print not_found_diagnostic ;;; sys_exit 1
  | Psycopg2Error =>
      print (lit "❌ Database error: " ++ exn_msg e) ;;; sys_exit 1
  | OtherException =>
      print (lit "❌ Unexpected error: " ++ exn_msg e) ;;; sys_exit 1
  end.

Definition main : M unit := try_except try_body handler.

(** The line an [except] clause prints for [e]. *)
Definition diagnostic (e : exn) : str :=
  match exn_class_of e with
  | FileNotFoundError => not_found_diagnostic
  | Psycopg2Error => lit "❌ Database error: " ++ exn_msg e
  | OtherException => lit "❌ Unexpected error: " ++ exn_msg e
  end.

(** One run of the script, from a fresh process. *)
Definition run : list event * result unit * state := main initial.

Definition trace : list event := fst (fst run).

(** The exit status of the process: 0 when the script runs to its
    end, the argument of [sys.exit], 1 for an uncaught exception. *)
Definition exit_code : Z :=
  match snd (fst run) with
  | Ok _ => 0
  | SystemExit c => c
  | Raise _ => 1
  end.

End Runner.

(** *** The paths of a run *)

Section Paths.

Variable db : Type.
Variable config : Type.
Variable DB_CONFIG : config.
Variable w : world db config.

Definition seg_open (a : exn + str) : list event :=
  [Print (lit "📖 Reading migration file..."); OpenRead migration_file a].

Definition seg_connect (a : option exn) : list event :=
  [Print (lit "🔌 Connecting to Railway database..."); Connect a].

Definition seg_setup : list event :=
  [SetAutocommit true; NewCursor;
   Print (lit "🚀 Executing migration..."); Print rule].

Definition seg_migrated : list event :=
  [Print (lit "✅ Migration executed successfully!"); Print rule;
   Print (nl :: lit "📊 Verification Results:");
   Print (times (lit "-") 60)].

Definition seg_counts (q title : str) (rows : list row) : list event :=
  [Execute q (inr (Some rows)); Fetchall (inr rows); Print title]
  ++ map Print (counts_lines rows).

Definition seg_goodbye : list event :=
  [Print (nl :: rule); Print (lit "✅ All done!"); CursorClose; ConnClose].

(** What follows [cursor.fetchone()], as a function of the row it
    returned. *)
Definition lookup_report (admin_result : option row) : list event :=
  Print (nl :: lit "👤 Admin user:") ::
  match admin_result with
  | None | Some [] => Print not_found_warning :: seg_goodbye
  | Some [a] =>
      [Print (lit "  ID: " ++ format a); Print (diagnostic index_error)]
  | Some [a; b] =>
      [Print (lit "  ID: " ++ format a); Print (lit "  Role: " ++ format b);
       Print (diagnostic index_error)]
  | Some [a; b; c] =>
      [Print (lit "  ID: " ++ format a); Print (lit "  Role: " ++ format b);
       Print (lit "  Wallet: " ++ format c);
       Print (diagnostic index_error)]
  | Some (a :: b :: c :: d :: _) =>
      [Print (lit "  ID: " ++ format a); Print (lit "  Role: " ++ format b);
       Print (lit "  Wallet: " ++ format c);
       Print (lit "  Created: " ++ format d)] ++ seg_goodbye
  end.

Definition lookup_code (admin_result : option row) : Z :=
  match admin_result with
  | Some [_] | Some [_; _] | Some [_; _; _] => 1
  | _ => 0
  end.

Definition duels_title : str := nl :: lit "🥊 Duels by status:".
Definition markets_title : str := nl :: lit "📈 Markets by status:".

(** The verification queries, from the server state the migration
    left. *)
Inductive verify : db -> list event -> Z -> Prop :=
| duels_error d1 e :
    db_execute w d1 duels_query = inl e ->
    verify d1 [Execute duels_query (inl e); Print (diagnostic e)] 1
| duels_no_results d1 d2 :
    db_execute w d1 duels_query = inr (d2, None) ->
    verify d1 [Execute duels_query (inr None); Fetchall (inl no_results);
               Print (diagnostic no_results)] 1
| duels_unpack d1 d2 rows r :
    db_execute w d1 duels_query = inr (d2, Some rows) ->
    counts_stop rows = Some r ->
    verify d1 (seg_counts duels_query duels_title rows
               ++ [Print (diagnostic (unpack_error r))]) 1
| markets_error d1 d2 rows e :
    db_execute w d1 duels_query = inr (d2, Some rows) ->
    counts_stop rows = None ->
    db_execute w d2 markets_query = inl e ->
    verify d1 (seg_counts duels_query duels_title rows
               ++ [Execute markets_query (inl e); Print (diagnostic e)]) 1
| markets_no_results d1 d2 rows d3 :
    db_execute w d1 duels_query = inr (d2, Some rows) ->
    counts_stop rows = None ->
    db_execute w d2 markets_query = inr (d3, None) ->
    verify d1 (seg_counts duels_query duels_title rows
               ++ [Execute markets_query (inr None);
                   Fetchall (inl no_results);
                   Print (diagnostic no_results)]) 1
| markets_unpack d1 d2 rows d3 rows' r :
    db_execute w d1 duels_query = inr (d2, Some rows) ->
    counts_stop rows = None ->
    db_execute w d2 markets_query = inr (d3, Some rows') ->
    counts_stop rows' = Some r ->
    verify d1 (seg_counts duels_query duels_title rows
               ++ seg_counts markets_query markets_title rows'
               ++ [Print (diagnostic (unpack_error r))]) 1
| admin_error d1 d2 rows d3 rows' e :
    db_execute w d1 duels_query = inr (d2, Some rows) ->
    counts_stop rows = None ->
    db_execute w d2 markets_query = inr (d3, Some rows') ->
    counts_stop rows' = None ->
    db_execute w d3 admin_query = inl e ->
    verify d1 (seg_counts duels_query duels_title rows
               ++ seg_counts markets_query markets_title rows'
               ++ [Execute admin_query (inl e); Print (diagnostic e)]) 1
| admin_no_results d1 d2 rows d3 rows' d4 :
    db_execute w d1 duels_query = inr (d2, Some rows) ->
    counts_stop rows = None ->
    db_execute w d2 markets_query = inr (d3, Some rows') ->
    counts_stop rows' = None ->
    db_execute w d3 admin_query = inr (d4, None) ->
    verify d1 (seg_counts duels_query duels_title rows
               ++ seg_counts markets_query markets_title rows'
               ++ [Execute admin_query (inr None);
                   Fetchone (inl no_results);
                   Print (diagnostic no_results)]) 1
| admin_lookup d1 d2 rows d3 rows' d4 found :
    db_execute w d1 duels_query = inr (d2, Some rows) ->
    counts_stop rows = None ->
    db_execute w d2 markets_query = inr (d3, Some rows') ->
    counts_stop rows' = None ->
    db_execute w d3 admin_query = inr (d4, Some found) ->
    verify d1 (seg_counts duels_query duels_title rows
               ++ seg_counts markets_query markets_title rows'
               ++ Execute admin_query (inr (Some found))
                  :: Fetchone (inr (hd_error found))
                  :: lookup_report (hd_error found))
           (lookup_code (hd_error found)).

(** Every run follows one of these paths, told apart by the answers
    of the environment. *)
Inductive path : list event -> Z -> Prop :=
| file_error e :
    fs_read w migration_file = inl e ->
    path (seg_open (inl e) ++ [Print (diagnostic e)]) 1
| connect_error c e :
    fs_read w migration_file = inr c ->
    db_connect w DB_CONFIG = inl e ->
    path (seg_open (inr c) ++ seg_connect (Some e)
          ++ [Print (diagnostic e)]) 1
| migration_error c d0 e :
    fs_read w migration_file = inr c ->
    db_connect w DB_CONFIG = inr d0 ->
    db_execute w d0 c = inl e ->
    path (seg_open (inr c) ++ seg_connect None ++ seg_setup
          ++ [Execute c (inl e); Print (diagnostic e)]) 1
| verification c d0 d1 rs0 t code :
    fs_read w migration_file = inr c ->
    db_connect w DB_CONFIG = inr d0 ->
    db_execute w d0 c = inr (d1, rs0) ->
    verify d1 t code ->
    path (seg_open (inr c) ++ seg_connect None ++ seg_setup
          ++ Execute c (inr rs0) :: seg_migrated ++ t) code.

End Paths.

(** *** A run in which every step succeeds *)

(** [f"  {status}: {count}"] for a row [status, count]. *)
Definition count_line (r : row) : str :=
  lit "  " ++ format (nth 0 r VNone) ++ lit ": " ++ format (nth 1 r VNone).

(** The trace of a run in which the file is read, the connection opens
    and the four statements are accepted. *)
Definition success_trace (content : str) (rs0 : option (list row))
    (duels markets found : list row) : list event :=
  seg_open (inr content) ++ seg_connect None ++ seg_setup
  ++ Execute content (inr rs0) :: seg_migrated
  ++ [Execute duels_query (inr (Some duels)); Fetchall (inr duels);
      Print duels_title]
  ++ map Print (map count_line duels)
  ++ [Execute markets_query (inr (Some markets)); Fetchall (inr markets);
      Print markets_title]
  ++ map Print (map count_line markets)
  ++ Execute admin_query (inr (Some found))
     :: Fetchone (inr (hd_error found))
     :: lookup_report (hd_error found).

(** *** Sample environments

    A server with one state that knows the three verification queries
    and takes any other text as the migration. *)

Definition sample_sql : str :=
  lit "-- 012: add the admin user
INSERT INTO admin_users (user_id, role) VALUES (1, 'super_admin');".

Definition sample_admin : row :=
  [VInt 1; VStr (lit "super_admin");
   VStr (lit "ARytv9UPs8ajtsHboVgtVJDwz1u7VrHTfDj8qERFrcJE");
   VObj (lit "2026-01-15 10:30:00")].

Definition sample_execute (payload_error : option exn) (admins : list row)
    (d : unit) (q : str) : exn + (unit * option (list row)) :=
  if eqb q duels_query then
    inr (tt, Some [[VStr (lit "active"); VInt 2];
                   [VStr (lit "resolved"); VInt 5]])
  else if eqb q markets_query then
    inr (tt, Some [[VStr (lit "open"); VInt 3]])
  else if eqb q admin_query then inr (tt, Some admins)
  else match payload_error with
       | Some e => inl e
       | None => inr (tt, None)
       end.

Definition sample_world (file : exn + str) (payload_error : option exn)
    (admins : list row) : world unit unit :=
  {| fs_read := fun _ => file;
     db_connect := fun _ => inr tt;
     db_execute := sample_execute payload_error admins |}.

(** The file is there and the database holds one admin record. *)
Definition world_one_admin : world unit unit :=
  sample_world (inr sample_sql) None [sample_admin].

(** No admin record matches the wallet address. *)
Definition world_no_admin : world unit unit :=
  sample_world (inr sample_sql) None [].

(** Two admin records match. *)
Definition world_two_admins : world unit unit :=
  sample_world (inr sample_sql) None
    [sample_admin; [VInt 2; VStr (lit "moderator");
                    VStr (lit "ARytv9UPs8ajtsHboVgtVJDwz1u7VrHTfDj8qERFrcJE");
                    VObj (lit "2026-02-01 08:00:00")]].

Definition no_such_file : exn :=
  Exn FileNotFoundError (lit "[Errno 2] No such file or directory").

(** The migration file is missing. *)
Definition world_missing_file : world unit unit :=
  sample_world (inl no_such_file) None [sample_admin].

Definition syntax_error : exn :=
  Exn Psycopg2Error (lit "syntax error at or near INSRT").

(** The server rejects the migration. *)
Definition world_bad_sql : world unit unit :=
  sample_world (inr sample_sql) (Some syntax_error) [sample_admin].

Definition connection_refused : exn :=
  Exn Psycopg2Error (lit "connection to server failed: Connection refused").

(** No server answers. *)
Definition world_no_server : world unit unit :=
  {| fs_read := fun _ => inr sample_sql;
     db_connect := fun _ => inl connection_refused;
     db_execute := sample_execute None [sample_admin] |}.

Definition missing_table : exn :=
  Exn Psycopg2Error (lit "relation duels does not exist").

(** The server accepts the migration and has no table [duels]. *)
Definition world_no_duels_table : world unit unit :=
  {| fs_read := fun _ => inr sample_sql;
     db_connect := fun _ => inr tt;
     db_execute := fun d q =>
       if eqb q duels_query then inl missing_table
       else sample_execute None [sample_admin] d q |}.

End Migration.

(* ================================================================== *)
(** ** prediction-market-frontend/fix-auth.py *)

Module FixAuth.

(** *** The regular expressions of [re], as far as the script uses them

    A compiled pattern is a sequence of items: literal characters, the
    greedy repetition [\s+], and group delimiters.  Anything else of the
    pattern syntax is refused by [parse]. *)

Inductive item :=
| Lit (c : N)
| Spaces
| Open (g : nat)
| Close (g : nat).

Definition is_alnum (c : N) : bool :=
  ((48 <=? c) && (c <=? 57) || (65 <=? c) && (c <=? 90)
   || (97 <=? c) && (c <=? 122))%N.

(** The characters with a meaning of their own in a pattern, other than
    the backslash and the parentheses: [. ^ $ * + ? { } [ ] |]. *)
Definition is_meta (c : N) : bool :=
  existsb (N.eqb c) [46; 94; 36; 42; 43; 63; 123; 125; 91; 93; 124]%N.

Definition cons_item (i : item) (r : option (list item)) :=
  option_map (cons i) r.

(** [next] is the number of the next group to open, [stack] the groups
    that are open. *)
Fixpoint parse (p : str) (next : nat) (stack : list nat)
  : option (list item) :=
  match p with
  | [] => match stack with [] => Some [] | _ :: _ => None end
  | c :: p1 =>
      if (c =? 92)%N then
        match p1 with
        | [] => None
        | e :: p2 =>
            if (e =? 115)%N then
              match p2 with
              | q :: p3 =>
                  if (q =? 43)%N
                  then cons_item Spaces (parse p3 next stack)
                  else None
              | [] => None
              end
            else if is_alnum e then None
            else cons_item (Lit e) (parse p2 next stack)
        end
      else if (c =? 40)%N then
        cons_item (Open next) (parse p1 (S next) (next :: stack))
      else if (c =? 41)%N then
        match stack with
        | g :: stack' => cons_item (Close g) (parse p1 next stack')
        | [] => None
        end
      else if is_meta c then None
      else cons_item (Lit c) (parse p1 next stack)
  end.

(** Group spans, as offsets from the start of the match. *)
Definition spans := list (nat * (nat * nat)).

Fixpoint assoc {A} (g : nat) (l : list (nat * A)) : option A :=
  match l with
  | [] => None
  | (k, v) :: l' => if Nat.eqb k g then Some v else assoc g l'
  end.

(** The backtracking matcher, anchored at the head of [s]: [pos]
    characters of the match are consumed already, [opened] holds the start
    offsets of the groups met, [sp] the spans of the closed ones.  The
    result is the spans with the text left after the match.  [\s+] takes
    as many characters as it can and gives them back one at a time. *)
Fixpoint bt (p : list item) (s : str) (pos : nat)
    (opened : list (nat * nat)) (sp : spans) {struct p}
  : option (spans * str) :=
  match p with
  | [] => Some (sp, s)
  | Lit c :: p' =>
      match s with
      | x :: s' => if (x =? c)%N then bt p' s' (S pos) opened sp else None
      | [] => None
      end
  | Spaces :: p' =>
      (fix plus (s : str) (pos : nat) {struct s} : option (spans * str) :=
         match s with
         | x :: s' =>
             if isspace x then
               match plus s' (S pos) with
               | Some r => Some r
               | None => bt p' s' (S pos) opened sp
               end
             else None
         | [] => None
         end) s pos
  | Open g :: p' => bt p' s pos ((g, pos) :: opened) sp
  | Close g :: p' =>
      match assoc g opened with
      | Some start => bt p' s pos opened ((g, (start, pos)) :: sp)
      | None => None
      end
  end.

Definition match_at (p : list item) (s : str) : option (spans * str) :=
  bt p s 0 [] [].

(** [pattern.search]: the leftmost position with a match.  The result is
    the text before the match, the subject from the match on, the spans
    and the text after the match. *)
Fixpoint search (p : list item) (s : str)
  : option (str * str * spans * str) :=
  match match_at p s with
  | Some (sp, rest) => Some ([], s, sp, rest)
  | None =>
      match s with
      | [] => None
      | c :: s' =>
          match search p s' with
          | Some (pre, m, sp, rest) => Some (c :: pre, m, sp, rest)
          | None => None
          end
      end
  end.

(** Replacement templates: text and group references [\1] ... [\9]. *)
Inductive piece :=
| Text (c : N)
| Group (g : nat).

Definition cons_piece (x : piece) (r : option (list piece)) :=
  option_map (cons x) r.

Definition is_digit (c : N) : bool := ((48 <=? c) && (c <=? 57))%N.

Fixpoint parse_template (t : str) : option (list piece) :=
  match t with
  | [] => Some []
  | c :: t1 =>
      if (c =? 92)%N then
        match t1 with
        | d :: t2 =>
            if ((49 <=? d) && (d <=? 57))%N then
              match t2 with
              | d' :: _ =>
                  if is_digit d' then None
                  else cons_piece (Group (N.to_nat (d - 48)))
                                  (parse_template t2)
              | [] => Some [Group (N.to_nat (d - 48))]
              end
            else None
        | [] => None
        end
      else cons_piece (Text c) (parse_template t1)
  end.

(** [match.expand]: a group that took no part in the match gives the
    empty string. *)
Fixpoint expand (t : list piece) (m : str) (sp : spans) : str :=
  match t with
  | [] => []
  | Text c :: t' => c :: expand t' m sp
  | Group g :: t' =>
      match assoc g sp with
      | Some (a, b) => firstn (b - a) (skipn a m) ++ expand t' m sp
      | None => expand t' m sp
      end
  end.

(** The substitution loop: search, copy the text before the match, write
    the expansion, go on after the match.  Every match of a pattern
    accepted by [re_sub] takes at least one character, so [fuel] above
    the length of the subject is never used up. *)
Fixpoint sub_loop (fuel : nat) (p : list item) (t : list piece) (s : str)
  : str :=
  match fuel with
  | O => s
  | S fuel' =>
      match search p s with
      | None => s
      | Some (pre, m, sp, rest) =>
          pre ++ expand t m sp ++ sub_loop fuel' p t rest
      end
  end.

Definition consumes (i : item) : bool :=
  match i with
  | Lit _ | Spaces => true
  | Open _ | Close _ => false
  end.

Definition groups (p : list item) : nat :=
  List.length
    (filter (fun i => match i with Open _ => true | _ => false end) p).

Definition refers_within (n : nat) (x : piece) : bool :=
  match x with
  | Text _ => true
  | Group g => Nat.leb g n
  end.

(** [re.sub(pattern, repl, string)]; [None] stands for [re.error] and
    for the patterns and templates outside the fragment above (among
    them the patterns that match the empty string). *)
Definition re_sub (pattern repl string : str) : option str :=
  match parse pattern 1 [], parse_template repl with
  | Some p, Some t =>
      if existsb consumes p && forallb (refers_within (groups p)) t
      then Some (sub_loop (S (List.length string)) p t string)
      else None
  | _, _ => None
  end.

(** *** The script *)

Definition target : str := lit "src/services/blockchainService.ts".

Definition old_pattern : str :=
  lit "(\s+console\.log\('  payload:', JSON\.stringify\(payload, null, 2\)\);)\s+(\s+const response = await fetch\(`\$\{import\.meta\.env\.VITE_API_URL\}/api/amm/pools`, \{\s+method: 'POST',\s+headers: \{ 'Content-Type': 'application/json' \},\s+body: JSON\.stringify\(payload\)\s+\}\);)".

Definition new_code : str :=
  lit "\1

        // Get JWT token from localStorage
        const token = localStorage.getItem('token');
        const headers: HeadersInit = {
          'Content-Type': 'application/json'
        };
        
        if (token) {
          headers['Authorization'] = `Bearer ${token}`;
          console.log('  ✅ Authorization token added');
        } else {
          console.warn('  ⚠️ No auth token found in localStorage');
        }
        
        const response = await fetch(`${import.meta.env.VITE_API_URL}/api/amm/pools`, {
          method: 'POST',
          headers,
          body: JSON.stringify(payload)
        });".

Definition success_message : str := lit "✅ File updated!".

(** The state of the target file ([None]: no such file), what the script
    printed, and the exit status of the process. *)
Record outcome := Outcome {
  file : option str;
  stdout : list str;
  status : Z
}.

(** One run, on the file at [target], taken as the text [read()] returns
    and [write()] receives.  Nothing here is caught: a missing file or an
    [re.error] ends the process with a traceback and status 1, before
    anything is written or printed.  [re.DOTALL] only changes the meaning
    of an unescaped dot, which the pattern does not have. *)
Definition fix_auth (before : option str) : outcome :=
  match before with
  | None => {| file := None; stdout := []; status := 1 |}
  | Some content =>
      match re_sub old_pattern new_code content with
      | None => {| file := Some content; stdout := []; status := 1 |}
      | Some content' =>
          {| file := Some content'; stdout := [success_message];
             status := 0 |}
      end
  end.

(** *** The pattern and the template of the script, compiled

    [old_pattern] is six literal texts separated by runs of white space;
    the first group holds the first run and the first text, and two [\s+]
    in a row separate it from the second group. *)

Definition L1 : str :=
  lit "console.log('  payload:', JSON.stringify(payload, null, 2));".

Definition L2 : str :=
  lit "const response = await fetch(`${import.meta.env.VITE_API_URL}/api/amm/pools`, {".

Definition L3 : str := lit "method: 'POST',".

Definition L4 : str :=
  lit "headers: { 'Content-Type': 'application/json' },".

Definition L5 : str := lit "body: JSON.stringify(payload)".

Definition L6 : str := lit "});".

Definition old_items : list item :=
  Open 1 :: Spaces :: map Lit L1
  ++ Close 1 :: Spaces :: Open 2 :: Spaces :: map Lit L2
  ++ Spaces :: map Lit L3 ++ Spaces :: map Lit L4
  ++ Spaces :: map Lit L5 ++ Spaces :: map Lit L6 ++ [Close 2].

(** What [new_code] puts after the first group. *)
Definition new_tail : str :=
  lit "

        // Get JWT token from localStorage
        const token = localStorage.getItem('token');
        const headers: HeadersInit = {
          'Content-Type': 'application/json'
        };
        
        if (token) {
          headers['Authorization'] = `Bearer ${token}`;
          console.log('  ✅ Authorization token added');
        } else {
          console.warn('  ⚠️ No auth token found in localStorage');
        }
        
        const response = await fetch(`${import.meta.env.VITE_API_URL}/api/amm/pools`, {
          method: 'POST',
          headers,
          body: JSON.stringify(payload)
        });".

Definition new_pieces : list piece := Group 1 :: map Text new_tail.

(** Whether [pattern.search(string)] finds a match. *)
Definition matches_somewhere (pattern string : str) : bool :=
  match parse pattern 1 [] with
  | Some p =>
      match search p string with
      | Some _ => true
      | None => false
      end
  | None => false
  end.

(** *** What a match is

    The matcher above is a search procedure; this is the relation it
    decides: [run p s pos opened sp sp' rest] when [p] matches a prefix of
    [s] leaving [rest], with the group spans growing from [sp] to [sp']. *)

Definition blank (V : str) : Prop := Forall (fun c => isspace c = true) V.

Inductive run :
  list item -> str -> nat -> list (nat * nat) -> spans -> spans -> str
  -> Prop :=
| run_end s pos opened sp :
    run [] s pos opened sp sp s
| run_lit c p s pos opened sp sp' rest :
    run p s (S pos) opened sp sp' rest ->
    run (Lit c :: p) (c :: s) pos opened sp sp' rest
| run_spaces V p s pos opened sp sp' rest :
    V <> [] -> blank V ->
    run p s (pos + List.length V) opened sp sp' rest ->
    run (Spaces :: p) (V ++ s) pos opened sp sp' rest
| run_open g p s pos opened sp sp' rest :
    run p s pos ((g, pos) :: opened) sp sp' rest ->
    run (Open g :: p) s pos opened sp sp' rest
| run_close g start p s pos opened sp sp' rest :
    assoc g opened = Some start ->
    run p s pos opened ((g, (start, pos)) :: sp) sp' rest ->
    run (Close g :: p) s pos opened sp sp' rest.

(** A match of [old_pattern] at the head of [s]: six runs of white space,
    the second of at least two characters, around the six texts. *)
Definition shape (V1 V2 V3 V4 V5 V6 : str) : str :=
  V1 ++ L1 ++ V2 ++ L2 ++ V3 ++ L3 ++ V4 ++ L4 ++ V5 ++ L5 ++ V6 ++ L6.

Inductive hit (s : str) : Prop :=
| Hit V1 V2 V3 V4 V5 V6 rest :
    blank V1 -> blank V2 -> blank V3 -> blank V4 -> blank V5 -> blank V6 ->
    V1 <> [] -> 2 <= List.length V2 -> V3 <> [] -> V4 <> [] -> V5 <> [] ->
    V6 <> [] ->
    s = shape V1 V2 V3 V4 V5 V6 ++ rest ->
    hit s.

(** *** Notions for the proofs *)

(** The first group of a match: its white space and the first text. *)
Definition first_group (sp : spans) (s : str) : str :=
  match assoc 1 sp with
  | Some (a, b) => firstn (b - a) (skipn a s)
  | None => []
  end.


(** No match anywhere in [s]. *)
Definition nohit (s : str) : Prop := forall i, ~ hit (skipn i s).

(** *** A sample file

    An excerpt with the block the script looks for, and what Python's
    [re.sub] makes of it. *)

Definition sample_ts : str :=
  lit "    try {
      console.log('Creating pool on the backend');
      console.log('  payload:', JSON.stringify(payload, null, 2));

        const response = await fetch(`${import.meta.env.VITE_API_URL}/api/amm/pools`, {
          method: 'POST',
          headers: { 'Content-Type': 'application/json' },
          body: JSON.stringify(payload)
        });
      return await response.json();
    } catch (e) {
      console.error(e);
    }
".

Definition sample_ts_patched : str :=
  lit "    try {
      console.log('Creating pool on the backend');
      console.log('  payload:', JSON.stringify(payload, null, 2));

        // Get JWT token from localStorage
        const token = localStorage.getItem('token');
        const headers: HeadersInit = {
          'Content-Type': 'application/json'
        };
        
        if (token) {
          headers['Authorization'] = `Bearer ${token}`;
          console.log('  ✅ Authorization token added');
        } else {
          console.warn('  ⚠️ No auth token found in localStorage');
        }
        
        const response = await fetch(`${import.meta.env.VITE_API_URL}/api/amm/pools`, {
          method: 'POST',
          headers,
          body: JSON.stringify(payload)
        });
      return await response.json();
    } catch (e) {
      console.error(e);
    }
".

(** *** Further notions for the proofs *)

(** [L] starts with a character that is not white space. *)
Definition starts_text (L : str) : bool :=
  match L with
  | c :: _ => negb (isspace c)
  | [] => false
  end.

(** No match starts at one of the first [n] places of [s]. *)
Definition no_match_before (n : nat) (s : str) : bool :=
  forallb (fun j => match match_at old_items (skipn j s) with
                    | None => true
                    | Some _ => false
                    end) (seq 0 n).

(** The parts of [sample_ts]: the text before the block, a line break
    with its indentation, and the text after the block. *)
Definition sample_head : str :=
  lit "    try {
      console.log('Creating pool on the backend');".

Definition indent (n : nat) : str := nl :: repeat 32%N n.

Definition sample_rest : str :=
  lit "
      return await response.json();
    } catch (e) {
      console.error(e);
    }
".

End FixAuth.

(* ================================================================== *)
(** ** Properties of run_migration.py *)

Module MigrationFacts.

Import Migration.

Section PathFacts.

Variable db : Type.
Variable config : Type.
Variable DB_CONFIG : config.
Variable w : world db config.

(** *** Every run follows a path *)

Lemma print_counts_eq (rows : list row) (s : state db) :
  print_counts rows s =
  (map Print (counts_lines rows),
   match counts_stop rows with
   | None => Ok tt
   | Some r => Raise (unpack_error r)
   end, s).
Proof.
  induction rows as [|r rows IH]; [reflexivity|].
  destruct r as [|a [|b [|c r]]]; try reflexivity.
  cbn [print_counts for_each counts_lines counts_stop map].
  change (for_each rows _) with (print_counts (db:=db) rows).
  cbv [bind unpack2 ret print emit fst snd]. rewrite IH.
  destruct (counts_stop rows); reflexivity.
Qed.

Lemma handler_eq (e : exn) (s : state db) :
  handler e s = ([Print (diagnostic e)], SystemExit 1, s).
Proof.
  unfold handler, diagnostic.
  destruct (exn_class_of e); reflexivity.
Qed.

Local Opaque times of_Z.

(** Runs the script symbolically: a case split at every answer of the
    environment. *)
Ltac crunch :=
  repeat (cbv beta iota zeta;
    match goal with
    | |- context [match fs_read ?w ?p with _ => _ end] =>
        destruct (fs_read w p) eqn:?
    | |- context [match db_connect ?w ?p with _ => _ end] =>
        destruct (db_connect w p) eqn:?
    | |- context [match db_execute ?w ?d ?q with _ => _ end] =>
        destruct (db_execute w d q) as [?|[? ?]] eqn:?
    | |- context [print_counts ?l ?s] =>
        rewrite (print_counts_eq l s); destruct (counts_stop l) eqn:?
    | |- context [handler ?e ?s] => rewrite (handler_eq e s)
    | |- context [match ?x with Some _ => _ | None => _ end] =>
        is_var x; destruct x
    | |- context [match ?x with [] => _ | _ :: _ => _ end] =>
        is_var x; destruct x
    end).

(** Picks the constructor of [verify] from the answers at hand. *)
Ltac pickv :=
  lazymatch goal with
  | H1 : db_execute _ _ duels_query = inr (_, Some ?l1),
    H2 : counts_stop ?l1 = None,
    H3 : db_execute _ _ markets_query = inr (_, Some ?l2),
    H4 : counts_stop ?l2 = None,
    H5 : db_execute _ _ admin_query = inl _ |- _ =>
      exact (@admin_error _ _ w _ _ _ _ _ _ H1 H2 H3 H4 H5)
  | H1 : db_execute _ _ duels_query = inr (_, Some ?l1),
    H2 : counts_stop ?l1 = None,
    H3 : db_execute _ _ markets_query = inr (_, Some ?l2),
    H4 : counts_stop ?l2 = None,
    H5 : db_execute _ _ admin_query = inr (_, None) |- _ =>
      exact (@admin_no_results _ _ w _ _ _ _ _ _ H1 H2 H3 H4 H5)
  | H1 : db_execute _ _ duels_query = inr (_, Some ?l1),
    H2 : counts_stop ?l1 = None,
    H3 : db_execute _ _ markets_query = inr (_, Some ?l2),
    H4 : counts_stop ?l2 = None,
    H5 : db_execute _ _ admin_query = inr (_, Some _) |- _ =>
      exact (@admin_lookup _ _ w _ _ _ _ _ _ _ H1 H2 H3 H4 H5)
  | H1 : db_execute _ _ duels_query = inr (_, Some ?l1),
    H2 : counts_stop ?l1 = None,
    H3 : db_execute _ _ markets_query = inl _ |- _ =>
      exact (@markets_error _ _ w _ _ _ _ H1 H2 H3)
  | H1 : db_execute _ _ duels_query = inr (_, Some ?l1),
    H2 : counts_stop ?l1 = None,
    H3 : db_execute _ _ markets_query = inr (_, None) |- _ =>
      exact (@markets_no_results _ _ w _ _ _ _ H1 H2 H3)
  | H1 : db_execute _ _ duels_query = inr (_, Some ?l1),
    H2 : counts_stop ?l1 = None,
    H3 : db_execute _ _ markets_query = inr (_, Some ?l2),
    H4 : counts_stop ?l2 = Some _ |- _ =>
      exact (@markets_unpack _ _ w _ _ _ _ _ _ H1 H2 H3 H4)
  | H1 : db_execute _ _ duels_query = inl _ |- _ =>
      exact (@duels_error _ _ w _ _ H1)
  | H1 : db_execute _ _ duels_query = inr (_, None) |- _ =>
      exact (@duels_no_results _ _ w _ _ H1)
  | H1 : db_execute _ _ duels_query = inr (_, Some ?l1),
    H2 : counts_stop ?l1 = Some _ |- _ =>
      exact (@duels_unpack _ _ w _ _ _ _ H1 H2)
  end.

Lemma run_path : path DB_CONFIG w (trace DB_CONFIG w) (exit_code DB_CONFIG w).
Proof.
  unfold trace, exit_code.
  cbv [run main try_except try_body bind ret emit print open_read connect
       set_autocommit conn_cursor execute fetchall fetchone cursor_close
       conn_close sys_exit initial session autocommit pending raise
       report_admin getitem nth_error].
  crunch; cbn [fst snd]; rewrite <- ?app_assoc; cbn [app].
  all: lazymatch goal with
    | H : fs_read _ _ = inl _ |- _ => eapply file_error; exact H
    | H : db_connect _ _ = inl _ |- _ => eapply connect_error; eassumption
    | H : fs_read _ _ = inr ?c, H' : db_execute _ _ ?c = inl _ |- _ =>
        eapply migration_error; eassumption
    | _ => eapply verification; [eassumption | eassumption | eassumption | ]
    end.
  all: pickv.
Qed.

(** *** Lists of events *)

Lemma in_prints (e : event) (lines : list str) :
  In e (map Print lines) -> exists l, e = Print l.
Proof.
  intros H. apply in_map_iff in H. destruct H as (l & <- & _). eauto.
Qed.

Lemma executed_app (t1 t2 : list event) :
  executed (t1 ++ t2) = executed t1 ++ executed t2.
Proof. apply flat_map_app. Qed.

Lemma executed_prints (lines : list str) : executed (map Print lines) = [].
Proof. induction lines; simpl; auto. Qed.

(** Writes the segments of a path as explicit events. *)
Ltac open_segs :=
  unfold seg_counts, seg_open, seg_connect, seg_setup, seg_migrated,
         seg_goodbye in *;
  rewrite <- ?app_assoc in *; cbn [app] in *.

(** Case analysis on the path of the run. *)
Ltac paths :=
  let R := fresh "R" in
  generalize (run_path);
  generalize (trace DB_CONFIG w) (exit_code DB_CONFIG w);
  intros ? ? R; destruct R as [ | | | ? ? ? ? ? ? ? ? ? R ];
  [ | | | destruct R ].

(** Claim C1.  The SQL text executed against the database is the text
    read from the migration file, verbatim: when the file holds
    [content] and the connection opens, the first [cursor.execute] of the
    run receives [content] itself (and nothing is executed when the
    connection fails).  The filtered text [sql_clean] is computed and
    never used: [sql_clean_is_not_executed] below shows a file for which
    it differs from what is executed. *)
Theorem executed_text_is_payload (content : str) :
  fs_read w migration_file = inr content ->
  match db_connect w DB_CONFIG with
  | inr _ => hd_error (executed (trace DB_CONFIG w)) = Some content
  | inl _ => executed (trace DB_CONFIG w) = []
  end.
Proof.
  intros Hfs. paths;
    repeat match goal with
           | H : fs_read _ _ = _ |- _ => rewrite H in *; clear H
           | H : db_connect _ _ = _ |- _ => rewrite H in *; clear H
           end;
    try discriminate; injection Hfs as <-; reflexivity.
Qed.

(** Identifies the answers named in the hypotheses with those of the
    path. *)
Ltac world_eqs :=
  repeat match goal with
         | H : fs_read _ _ = _, H' : fs_read _ _ = _ |- _ =>
             rewrite H in H'; try discriminate H';
             injection H' as ?; subst
         | H : db_connect _ _ = _, H' : db_connect _ _ = _ |- _ =>
             rewrite H in H'; try discriminate H';
             injection H' as ?; subst
         | H : db_execute _ ?d ?q = _, H' : db_execute _ ?d ?q = _ |- _ =>
             rewrite H in H'; try discriminate H';
             injection H' as ?; subst
         end.

(** Claim C3.  When the execution of the payload raises (a syntax
    error, any engine-side error), the run exits with status 1 right
    after the attempt: the trace ends with the failed [Execute] and the
    diagnostic, and the payload is the only SQL text ever executed, so
    none of the three verification queries runs. *)
Theorem failed_migration_stops_the_run (content : str) (d : db) (e : exn) :
  fs_read w migration_file = inr content ->
  db_connect w DB_CONFIG = inr d ->
  db_execute w d content = inl e ->
  exit_code DB_CONFIG w = 1%Z
  /\ trace DB_CONFIG w =
       seg_open (inr content) ++ seg_connect None ++ seg_setup
       ++ [Execute content (inl e); Print (diagnostic e)]
  /\ executed (trace DB_CONFIG w) = [content].
Proof.
  intros Hfs Hc Hx. paths; world_eqs.
  repeat split; reflexivity.
Qed.




(** Membership in a trace made of explicit events and printed lines. *)
Ltac in_cases H :=
  repeat first
    [ apply in_app_or in H; destruct H as [H|H]
    | apply in_prints in H; destruct H as [? H]; discriminate H
    | destruct H as [H|H]; [try discriminate H|]
    | contradiction H ].


(** *** Cutting a trace at an event *)

Lemma peel_nil (pre : list event) (e : event) (post : list event) :
  [] = pre ++ e :: post -> False.
Proof. destruct pre; discriminate. Qed.

Lemma peel_cons (x : event) (T pre : list event) (e : event)
    (post : list event) :
  x :: T = pre ++ e :: post ->
  (pre = [] /\ x = e /\ T = post)
  \/ (exists pre', pre = x :: pre' /\ T = pre' ++ e :: post).
Proof.
  destruct pre as [|p pre]; cbn [app]; intros E; injection E as -> ->.
  - left. auto.
  - right. eauto.
Qed.

Lemma peel_prints (lines : list str) (T pre : list event) (e : event)
    (post : list event) :
  (forall l, e <> Print l) ->
  map Print lines ++ T = pre ++ e :: post ->
  exists pre', pre = map Print lines ++ pre' /\ T = pre' ++ e :: post.
Proof.
  intros Ne. revert pre.
  induction lines as [|l lines IH]; cbn [map app]; intros pre E.
  - eauto.
  - apply peel_cons in E.
    destruct E as [(_ & E & _) | (pre' & -> & E)].
    + symmetry in E. destruct (Ne _ E).
    + destruct (IH _ E) as (pre'' & -> & E').
      exists pre''. auto.
Qed.

Ltac peel H :=
  repeat
    match type of H with
    | [] = _ ++ _ :: _ => exfalso; exact (peel_nil _ _ _ H)
    | map Print _ ++ _ = _ ++ _ :: _ =>
        apply peel_prints in H;
        [ destruct H as (? & -> & H) | intros; discriminate ]
    | _ :: _ = _ ++ _ :: _ =>
        let E := fresh "E" in
        apply peel_cons in H;
        destruct H as [(-> & E & H) | (? & -> & H)];
        [ try discriminate E | ]
    end.

Ltac find_in :=
  repeat first
    [ left; reflexivity | apply in_or_app; right | right ].



Lemma fetchone_prints (lines : list str) :
  filter is_fetchone (map Print lines) = [].
Proof. induction lines; simpl; auto. Qed.

Lemma lookup_report_fetchones (r : option row) :
  filter is_fetchone (lookup_report r) = [].
Proof.
  destruct r as [[|v0 [|v1 [|v2 [|v3 r]]]]|]; reflexivity.
Qed.

Lemma lookup_report_no_execute (r : option row) (q : str)
    (a : exn + option (list row)) :
  ~ In (Execute q a) (lookup_report r).
Proof.
  destruct r as [[|v0 [|v1 [|v2 [|v3 r]]]]|]; cbn [lookup_report];
    intros Hin; open_segs; in_cases Hin.
Qed.

Ltac no_cut_in_report H :=
  exfalso; eapply lookup_report_no_execute; rewrite H; apply in_elt.

(** The admin lookup of a run: the [cursor.execute] of the admin query
    and the [cursor.fetchone()] right after it. *)
Lemma admin_lookup_inv (pre : list event) (rows : list row)
    (x : exn + option row) (post : list event) :
  trace DB_CONFIG w
  = pre ++ Execute admin_query (inr (Some rows)) :: Fetchone x :: post ->
  x = inr (hd_error rows)
  /\ post = lookup_report (hd_error rows)
  /\ exit_code DB_CONFIG w = lookup_code (hd_error rows)
  /\ List.length (filter is_fetchone (trace DB_CONFIG w)) = 1.
Proof.
  paths; intros Hcut; open_segs; peel Hcut; try discriminate Hcut.
  2: no_cut_in_report Hcut.
  injection E as <-. injection Hcut as <- <-.
  repeat split.
  repeat (progress cbn [filter is_fetchone app]
          || rewrite filter_app || rewrite fetchone_prints
          || rewrite lookup_report_fetchones).
  reflexivity.
Qed.

(** Claim C6.  When the admin query is answered with exactly one
    record [(id, role, wallet, created)], [fetchone] returns that record
    and what follows is the header and one line for each of the id, the
    role, the wallet address and the creation timestamp, each printed
    exactly once, then the closing banner; the run exits with status
    0. *)
Theorem single_admin_record_is_reported_once (pre : list event)
    (x : exn + option row) (post : list event)
    (id role wallet created : value) :
  trace DB_CONFIG w
  = pre ++ Execute admin_query (inr (Some [[id; role; wallet; created]]))
        :: Fetchone x :: post ->
  x = inr (Some [id; role; wallet; created])
  /\ post = [Print (nl :: lit "👤 Admin user:");
             Print (lit "  ID: " ++ format id);
             Print (lit "  Role: " ++ format role);
             Print (lit "  Wallet: " ++ format wallet);
             Print (lit "  Created: " ++ format created);
             Print (nl :: rule); Print (lit "✅ All done!");
             CursorClose; ConnClose]
  /\ exit_code DB_CONFIG w = 0%Z.
Proof.
  intros Hcut. apply admin_lookup_inv in Hcut.
  destruct Hcut as (-> & -> & -> & _). repeat split.
Qed.

(** Claim C10.  The admin verification reports at most one record:
    whatever rows the admin query returns, [fetchone] is called once in
    the run, yields the first row only (or [None]), and everything that
    follows is a function of that first row alone. *)
Theorem only_the_first_admin_row_is_reported (pre : list event)
    (rows : list row) (x : exn + option row) (post : list event) :
  trace DB_CONFIG w
  = pre ++ Execute admin_query (inr (Some rows)) :: Fetchone x :: post ->
  x = inr (hd_error rows)
  /\ post = lookup_report (hd_error rows)
  /\ List.length (filter is_fetchone (trace DB_CONFIG w)) = 1.
Proof.
  intros Hcut. apply admin_lookup_inv in Hcut. tauto.
Qed.

(** Claim C7.  Operations occur in strict order.  Before any
    [cursor.execute] of a run, the file has been read; an [Execute] with
    no earlier [Execute] is the migration itself, on the text read; any
    later one is a verification query and comes after the migration
    execution returned without error.  An [Execute] that raises is the
    last one of the run. *)
Theorem read_then_migrate_then_verify (pre : list event) (q : str)
    (ans : exn + option (list row)) (post : list event) :
  trace DB_CONFIG w = pre ++ Execute q ans :: post ->
  exists content,
    In (OpenRead migration_file (inr content)) pre
    /\ ((executed pre = [] /\ q = content)
        \/ (hd_error (executed pre) = Some content
            /\ (exists rs, In (Execute content (inr rs)) pre)
            /\ In q [duels_query; markets_query; admin_query]))
    /\ (forall e, ans = inl e -> executed post = []).
Proof.
  paths; intros Hcut; open_segs; peel Hcut;
    try no_cut_in_report Hcut;
    try (injection E as <- <-); subst post;
    (exists c; split; [find_in | split];
     [ first [ left; split; reflexivity
             | right; split;
               [reflexivity | split; [eexists; find_in | find_in]] ]
     | intros e0 He0; try discriminate He0; reflexivity ]).
Qed.

Lemma connect_prints (lines : list str) :
  filter is_connect (map Print lines) = [].
Proof. induction lines; simpl; auto. Qed.

Lemma lookup_report_connects (r : option row) :
  filter is_connect (lookup_report r) = [].
Proof.
  destruct r as [[|v0 [|v1 [|v2 [|v3 r]]]]|]; reflexivity.
Qed.

Lemma lookup_report_executed (r : option row) :
  executed (lookup_report r) = [].
Proof.
  destruct r as [[|v0 [|v1 [|v2 [|v3 r]]]]|]; reflexivity.
Qed.

Ltac count_connections :=
  unfold connections;
  repeat (progress cbn [filter is_connect app List.length]
          || rewrite filter_app || rewrite connect_prints
          || rewrite lookup_report_connects).

Ltac list_executed :=
  repeat (progress cbn [executed flat_map app]
          || rewrite flat_map_app
          || rewrite (executed_prints : forall l, flat_map _ _ = [])
          || rewrite (lookup_report_executed : forall r, flat_map _ _ = [])).

(** Claim C8, as amended.  [psycopg2.connect] is called at most once
    per run, and exactly once precisely when the migration file was
    read.  Every [cursor.execute] comes after a successful connect that
    is immediately followed by [conn.autocommit = True], and the texts
    executed are an initial part of: the payload, then the three
    verification queries (so no transaction statement is ever
    issued). *)
Theorem at_most_one_connection_in_autocommit :
  connections (trace DB_CONFIG w) <= 1
  /\ (connections (trace DB_CONFIG w) = 1
      <-> exists content, fs_read w migration_file = inr content)
  /\ (forall pre q ans post,
        trace DB_CONFIG w = pre ++ Execute q ans :: post ->
        connections pre = 1
        /\ exists p1 p2,
             pre = p1 ++ Connect None :: SetAutocommit true :: p2)
  /\ (forall content,
        fs_read w migration_file = inr content ->
        exists n,
          executed (trace DB_CONFIG w)
          = firstn n [content; duels_query; markets_query; admin_query]).
Proof.
  split; [|split; [|split]].
  - paths; open_segs; count_connections; lia.
  - paths; open_segs; count_connections;
      (split; [ intros E; try discriminate E; eauto
              | intros (content & E); try reflexivity; congruence ]).
  - intros pre q ans post.
    paths; intros Hcut; open_segs; peel Hcut;
      try no_cut_in_report Hcut;
      (split; [ count_connections; reflexivity
              | exists [Print (lit "📖 Reading migration file...");
                        OpenRead migration_file (inr c);
                        Print (lit "🔌 Connecting to Railway database...")];
                eexists; reflexivity ]).
  - intros content Hfs.
    paths; world_eqs; open_segs; list_executed;
      first [ exists 0; reflexivity | exists 1; reflexivity
            | exists 2; reflexivity | exists 3; reflexivity
            | exists 4; reflexivity ].
Qed.

(** *** Further paths: the run that succeeds and the runs that stop *)

Lemma counts_of_pairs (rows : list row) :
  Forall (fun r => List.length r = 2) rows ->
  counts_lines rows = map count_line rows /\ counts_stop rows = None.
Proof.
  induction 1 as [|r rows Hr _ (IH1 & IH2)]; [split; reflexivity|].
  destruct r as [|a [|b [|c r]]]; try discriminate Hr.
  cbn [counts_lines counts_stop map]. rewrite IH1. split; [reflexivity|].
  exact IH2.
Qed.

Lemma pairs_of_counts (rows : list row) :
  counts_stop rows = None ->
  Forall (fun r => List.length r = 2) rows
  /\ counts_lines rows = map count_line rows.
Proof.
  induction rows as [|r rows IH]; intros H; [split; [constructor|reflexivity]|].
  destruct r as [|a [|b [|c r]]]; try discriminate H.
  cbn [counts_stop] in H. destruct (IH H) as (F & E).
  split; [constructor; [reflexivity | exact F]|].
  cbn [counts_lines map]. rewrite E. reflexivity.
Qed.

Lemma success_trace_executed (content : str) (rs0 : option (list row))
    (duels markets found : list row) :
  executed (success_trace content rs0 duels markets found)
  = [content; duels_query; markets_query; admin_query].
Proof.
  unfold success_trace. open_segs. list_executed. reflexivity.
Qed.

(** When the file is read, the connection opens, the four statements are
    accepted, the two count queries return rows of two columns and the
    admin query rows of four, the run exits with status 0 and prints, for
    each count query, its title and one line per row, in the order of the
    rows. *)
Theorem successful_run_reports_every_row (content : str) (d0 d1 d2 d3 d4 : db)
    (rs0 : option (list row)) (duels markets found : list row) :
  fs_read w migration_file = inr content ->
  db_connect w DB_CONFIG = inr d0 ->
  db_execute w d0 content = inr (d1, rs0) ->
  db_execute w d1 duels_query = inr (d2, Some duels) ->
  db_execute w d2 markets_query = inr (d3, Some markets) ->
  db_execute w d3 admin_query = inr (d4, Some found) ->
  Forall (fun r => List.length r = 2) duels ->
  Forall (fun r => List.length r = 2) markets ->
  Forall (fun r => List.length r = 4) found ->
  exit_code DB_CONFIG w = 0%Z
  /\ trace DB_CONFIG w = success_trace content rs0 duels markets found.
Proof.
  intros Hfs Hc Hm Hd Hk Ha Fd Fk Fa.
  destruct (counts_of_pairs Fd) as (Ld & Sd).
  destruct (counts_of_pairs Fk) as (Lk & Sk).
  paths; world_eqs; try congruence.
  unfold success_trace, seg_counts. rewrite Ld, Lk.
  split.
  - match goal with
    | |- lookup_code (hd_error ?f) = _ =>
        destruct f as [|[|? [|? [|? [|? ?]]]] ?]
    end; try reflexivity; inversion Fa as [|? ? Hr _]; discriminate Hr.
  - rewrite <- !app_assoc. reflexivity.
Qed.

(** Status 0 is only reached along the path where every step succeeds:
    the file was read, exactly the payload and the three verification
    queries were executed, in this order, and both count queries returned
    rows of two columns. *)
Theorem exit_zero_means_every_step_succeeded :
  exit_code DB_CONFIG w = 0%Z ->
  exists content rs0 duels markets found,
    fs_read w migration_file = inr content
    /\ trace DB_CONFIG w = success_trace content rs0 duels markets found
    /\ executed (trace DB_CONFIG w)
       = [content; duels_query; markets_query; admin_query]
    /\ Forall (fun r => List.length r = 2) duels
    /\ Forall (fun r => List.length r = 2) markets.
Proof.
  paths; intros Hz; try discriminate Hz.
  match goal with
  | Hf : fs_read _ _ = inr ?c,
    Hm : db_execute _ _ ?c = inr (_, ?rs0),
    Hd : db_execute _ _ duels_query = inr (_, Some ?rows),
    Sd : counts_stop ?rows = None,
    Hk : db_execute _ _ markets_query = inr (_, Some ?rows'),
    Sk : counts_stop ?rows' = None,
    Ha : db_execute _ _ admin_query = inr (_, Some ?found) |- _ =>
      destruct (pairs_of_counts _ Sd) as (Fd & Ld);
      destruct (pairs_of_counts _ Sk) as (Fk & Lk);
      exists c, rs0, rows, rows', found;
      assert (E : seg_open (inr c) ++ seg_connect None ++ seg_setup
                  ++ Execute c (inr rs0) :: seg_migrated
                  ++ seg_counts duels_query duels_title rows
                  ++ seg_counts markets_query markets_title rows'
                  ++ Execute admin_query (inr (Some found))
                     :: Fetchone (inr (hd_error found))
                     :: lookup_report (hd_error found)
                  = success_trace c rs0 rows rows' found)
        by (unfold success_trace, seg_counts; rewrite Ld, Lk;
            rewrite <- !app_assoc; reflexivity)
  end.
  rewrite E. repeat split; auto. apply success_trace_executed.
Qed.

(** When [psycopg2.connect] raises, the run prints the diagnostic for the
    exception and exits with status 1; autocommit is never set, no cursor
    is created and nothing is executed. *)
Theorem failed_connection_stops_the_run (content : str) (e : exn) :
  fs_read w migration_file = inr content ->
  db_connect w DB_CONFIG = inl e ->
  exit_code DB_CONFIG w = 1%Z
  /\ trace DB_CONFIG w =
       seg_open (inr content) ++ seg_connect (Some e)
       ++ [Print (diagnostic e)]
  /\ executed (trace DB_CONFIG w) = [].
Proof.
  intros Hfs Hc. paths; world_eqs; try congruence.
  repeat split; reflexivity.
Qed.

(** A verification query that raises makes the run exit with status 1
    although the migration has been executed and accepted before: the
    status does not tell whether the migration was applied. *)
Theorem failed_verification_after_applied_migration (content : str)
    (d0 d1 : db) (rs0 : option (list row)) (e : exn) :
  fs_read w migration_file = inr content ->
  db_connect w DB_CONFIG = inr d0 ->
  db_execute w d0 content = inr (d1, rs0) ->
  db_execute w d1 duels_query = inl e ->
  exit_code DB_CONFIG w = 1%Z
  /\ In (Execute content (inr rs0)) (trace DB_CONFIG w)
  /\ executed (trace DB_CONFIG w) = [content; duels_query]
  /\ exists pre,
       trace DB_CONFIG w
       = pre ++ [Execute duels_query (inl e); Print (diagnostic e)].
Proof.
  intros Hfs Hc Hm Hd. paths; world_eqs; try congruence.
  repeat split; try reflexivity.
  - open_segs. find_in.
  - match goal with
    | |- exists pre, ?a ++ ?b ++ ?c ++ ?x :: ?d ++ _ = _ =>
        exists (a ++ b ++ c ++ x :: d)
    end.
    repeat (rewrite <- app_assoc || rewrite <- app_comm_cons). reflexivity.
Qed.

End PathFacts.

(** *** The theorems at the sample environments *)


(** The comment filter changes the sample file, and the text executed is
    still the file as read. *)
Lemma sql_clean_is_not_executed :
  sql_clean sample_sql <> sample_sql
  /\ hd_error (executed (trace tt world_one_admin)) = Some sample_sql.
Proof. split; [vm_compute; discriminate | reflexivity]. Qed.

Lemma executed_text_is_payload_witness :
  fs_read world_one_admin migration_file = inr sample_sql
  /\ hd_error (executed (trace tt world_one_admin)) = Some sample_sql.
Proof.
  split; [reflexivity|].
  exact (@executed_text_is_payload unit unit tt world_one_admin sample_sql
           eq_refl).
Defined.

Lemma failed_migration_stops_the_run_witness :
  db_execute world_bad_sql tt sample_sql = inl syntax_error
  /\ exit_code tt world_bad_sql = 1%Z
  /\ executed (trace tt world_bad_sql) = [sample_sql].
Proof.
  split; [reflexivity|].
  destruct (@failed_migration_stops_the_run unit unit tt world_bad_sql
              sample_sql tt syntax_error eq_refl eq_refl eq_refl)
    as (E & _ & X).
  exact (conj E X).
Defined.



(** With the one record [sample_admin] in the database, what the run
    prints after the lookup is the header, the id, the role, the wallet
    address and the creation timestamp of that record, each on its line,
    and the closing banner. *)
Lemma single_admin_record_is_reported_once_witness :
  trace tt world_one_admin
  = firstn 22 (trace tt world_one_admin)
    ++ Execute admin_query (inr (Some [sample_admin]))
       :: Fetchone (inr (Some sample_admin))
       :: skipn 24 (trace tt world_one_admin)
  /\ skipn 24 (trace tt world_one_admin)
     = [Print (lit "
👤 Admin user:");
        Print (lit "  ID: 1");
        Print (lit "  Role: super_admin");
        Print (lit "  Wallet: ARytv9UPs8ajtsHboVgtVJDwz1u7VrHTfDj8qERFrcJE");
        Print (lit "  Created: 2026-01-15 10:30:00");
        Print (lit "
============================================================");
        Print (lit "✅ All done!");
        CursorClose; ConnClose]
  /\ exit_code tt world_one_admin = 0%Z.
Proof.
  assert (Hcut :
    trace tt world_one_admin
    = firstn 22 (trace tt world_one_admin)
      ++ Execute admin_query (inr (Some [sample_admin]))
         :: Fetchone (inr (Some sample_admin))
         :: skipn 24 (trace tt world_one_admin))
    by (vm_compute; reflexivity).
  destruct (@single_admin_record_is_reported_once unit unit tt
              world_one_admin _ _ _ _ _ _ _ Hcut) as (_ & Hpost & Hcode).
  split; [exact Hcut | split; [exact Hpost | exact Hcode]].
Defined.

Lemma only_the_first_admin_row_is_reported_witness :
  trace tt world_two_admins
  = firstn 22 (trace tt world_two_admins)
    ++ Execute admin_query
         (inr (Some [sample_admin;
                     [VInt 2; VStr (lit "moderator");
                      VStr (lit "ARytv9UPs8ajtsHboVgtVJDwz1u7VrHTfDj8qERFrcJE");
                      VObj (lit "2026-02-01 08:00:00")]]))
       :: Fetchone (inr (Some sample_admin))
       :: skipn 24 (trace tt world_two_admins)
  /\ skipn 24 (trace tt world_two_admins)
     = lookup_report (Some sample_admin).
Proof.
  assert (Hcut :
    trace tt world_two_admins
    = firstn 22 (trace tt world_two_admins)
      ++ Execute admin_query
           (inr (Some [sample_admin;
                       [VInt 2; VStr (lit "moderator");
                        VStr (lit "ARytv9UPs8ajtsHboVgtVJDwz1u7VrHTfDj8qERFrcJE");
                        VObj (lit "2026-02-01 08:00:00")]]))
         :: Fetchone (inr (Some sample_admin))
         :: skipn 24 (trace tt world_two_admins))
    by (vm_compute; reflexivity).
  split; [exact Hcut|].
  exact (proj1 (proj2
           (@only_the_first_admin_row_is_reported unit unit tt
              world_two_admins _ _ _ _ Hcut))).
Defined.

Lemma read_then_migrate_then_verify_witness :
  trace tt world_one_admin
  = firstn 13 (trace tt world_one_admin)
    ++ Execute duels_query
         (inr (Some [[VStr (lit "active"); VInt 2];
                     [VStr (lit "resolved"); VInt 5]]))
       :: skipn 14 (trace tt world_one_admin)
  /\ exists content,
       In (OpenRead migration_file (inr content))
          (firstn 13 (trace tt world_one_admin)).
Proof.
  assert (Hcut :
    trace tt world_one_admin
    = firstn 13 (trace tt world_one_admin)
      ++ Execute duels_query
           (inr (Some [[VStr (lit "active"); VInt 2];
                       [VStr (lit "resolved"); VInt 5]]))
         :: skipn 14 (trace tt world_one_admin))
    by (vm_compute; reflexivity).
  split; [exact Hcut|].
  destruct (@read_then_migrate_then_verify unit unit tt world_one_admin
              _ _ _ _ Hcut) as (content & Hin & _).
  exists content. exact Hin.
Defined.


(** Claim C8 fails as stated: when the migration file is missing, the run
    opens no connection at all. *)
Lemma no_connection_without_file :
  connections (trace tt world_missing_file) <> 1.
Proof. vm_compute. discriminate. Qed.

Lemma successful_run_reports_every_row_witness :
  exit_code tt world_one_admin = 0%Z
  /\ trace tt world_one_admin
     = success_trace sample_sql None
         [[VStr (lit "active"); VInt 2]; [VStr (lit "resolved"); VInt 5]]
         [[VStr (lit "open"); VInt 3]]
         [sample_admin].
Proof.
  exact (@successful_run_reports_every_row unit unit tt world_one_admin
           sample_sql tt tt tt tt tt None _ _ _
           eq_refl eq_refl eq_refl eq_refl eq_refl eq_refl
           ltac:(repeat constructor) ltac:(repeat constructor)
           ltac:(repeat constructor)).
Defined.

Lemma exit_zero_means_every_step_succeeded_witness :
  exit_code tt world_no_admin = 0%Z
  /\ exists content rs0 duels markets found,
       fs_read world_no_admin migration_file = inr content
       /\ trace tt world_no_admin
          = success_trace content rs0 duels markets found
       /\ executed (trace tt world_no_admin)
          = [content; duels_query; markets_query; admin_query]
       /\ Forall (fun r => List.length r = 2) duels
       /\ Forall (fun r => List.length r = 2) markets.
Proof.
  split; [reflexivity|].
  exact (@exit_zero_means_every_step_succeeded unit unit tt world_no_admin
           eq_refl).
Defined.

Lemma failed_connection_stops_the_run_witness :
  db_connect world_no_server tt = inl connection_refused
  /\ exit_code tt world_no_server = 1%Z
  /\ executed (trace tt world_no_server) = [].
Proof.
  split; [reflexivity|].
  destruct (@failed_connection_stops_the_run unit unit tt world_no_server
              sample_sql connection_refused eq_refl eq_refl)
    as (E & _ & X).
  exact (conj E X).
Defined.

Lemma failed_verification_after_applied_migration_witness :
  db_execute world_no_duels_table tt duels_query = inl missing_table
  /\ exit_code tt world_no_duels_table = 1%Z
  /\ In (Execute sample_sql (inr None)) (trace tt world_no_duels_table).
Proof.
  split; [reflexivity|].
  destruct (@failed_verification_after_applied_migration unit unit tt
              world_no_duels_table sample_sql tt tt None missing_table
              eq_refl eq_refl eq_refl eq_refl)
    as (E & I & _).
  exact (conj E I).
Defined.

End MigrationFacts.

(* ================================================================== *)
(** ** Properties of the comment filter of run_migration.py *)

Module SqlCleanFacts.

Import Migration.

(** *** [split] and [join] *)

Lemma split_not_nil (sep : N) (s : str) : split sep s <> [].
Proof.
  destruct s as [|c s]; cbn [split]; [discriminate|].
  destruct (c =? sep)%N; [discriminate|].
  destruct (split sep s); discriminate.
Qed.

Lemma split_no_sep (sep : N) (s : str) :
  Forall (fun piece => ~ In sep piece) (split sep s).
Proof.
  induction s as [|c s IH]; cbn [split].
  - repeat constructor. intros [].
  - destruct (c =? sep)%N eqn:E.
    + constructor; [intros [] | exact IH].
    + apply N.eqb_neq in E.
      destruct (split sep s) as [|h t]; inversion IH; subst;
        repeat constructor; cbn [In]; intuition congruence.
Qed.

Lemma split_piece (sep : N) (p : str) :
  ~ In sep p -> split sep p = [p].
Proof.
  induction p as [|c p IH]; intros H; [reflexivity|].
  cbn [split]. destruct (c =? sep)%N eqn:E.
  - apply N.eqb_eq in E. subst. destruct H. left. reflexivity.
  - rewrite IH; [reflexivity|]. intros Hin. apply H. right. exact Hin.
Qed.

Lemma split_app_sep (sep : N) (p t : str) :
  ~ In sep p -> split sep (p ++ sep :: t) = p :: split sep t.
Proof.
  induction p as [|c p IH]; intros H; cbn [app split].
  - rewrite N.eqb_refl. reflexivity.
  - destruct (c =? sep)%N eqn:E.
    + apply N.eqb_eq in E. subst. destruct H. left. reflexivity.
    + rewrite IH; [reflexivity|]. intros Hin. apply H. right. exact Hin.
Qed.

Lemma split_join (sep : N) (pieces : list str) :
  pieces <> [] ->
  Forall (fun piece => ~ In sep piece) pieces ->
  split sep (join [sep] pieces) = pieces.
Proof.
  induction pieces as [|p [|q pieces] IH]; intros N F; [congruence| |].
  - cbn [join]. apply split_piece. inversion F. assumption.
  - inversion F as [|? ? Hp F']; subst.
    change (join [sep] (p :: q :: pieces))
      with (p ++ [sep] ++ join [sep] (q :: pieces)).
    cbn [app]. rewrite split_app_sep by exact Hp.
    rewrite IH; [reflexivity | discriminate | exact F'].
Qed.

Lemma join_split (sep : N) (s : str) : join [sep] (split sep s) = s.
Proof.
  induction s as [|c s IH]; [reflexivity|].
  cbn [split]. destruct (c =? sep)%N eqn:E.
  - apply N.eqb_eq in E. subst c.
    pose proof (split_not_nil sep s) as Hn.
    destruct (split sep s) as [|h t]; [congruence|].
    cbn [join app] in *. rewrite IH. reflexivity.
  - pose proof (split_not_nil sep s) as Hn.
    destruct (split sep s) as [|h t]; [congruence|].
    destruct t as [|h' t]; cbn [join app] in *; rewrite <- IH; reflexivity.
Qed.

(** *** The comment filter *)

Lemma filter_keeps_all {A} (f : A -> bool) (l : list A) :
  Forall (fun x => f x = true) l -> filter f l = l.
Proof.
  induction 1 as [|x l Hx _ IH]; cbn [filter]; [reflexivity|].
  rewrite Hx, IH. reflexivity.
Qed.

Lemma filter_all_kept {A} (f : A -> bool) (l : list A) :
  Forall (fun x => f x = true) (filter f l).
Proof.
  induction l as [|x l IH]; cbn [filter]; [constructor|].
  destruct (f x) eqn:E; [constructor; assumption | exact IH].
Qed.

Lemma filter_Forall {A} (P : A -> Prop) (f : A -> bool) (l : list A) :
  Forall P l -> Forall P (filter f l).
Proof.
  induction 1 as [|x l Hx _ IH]; cbn [filter]; [constructor|].
  destruct (f x); [constructor; assumption | exact IH].
Qed.

Lemma sql_lines_comment_free (sql_content : str) :
  Forall (fun line => startswith (strip line) (lit "--") = false)
         (sql_lines sql_content).
Proof.
  unfold sql_lines. eapply Forall_impl; [|apply filter_all_kept].
  cbn beta. intros line E. apply negb_true_iff in E. exact E.
Qed.

Lemma sql_lines_no_break (sql_content : str) :
  Forall (fun line => ~ In nl line) (sql_lines sql_content).
Proof. unfold sql_lines. apply filter_Forall. apply split_no_sep. Qed.

Lemma joined_lines_are_kept (lines : list str) :
  Forall (fun line => startswith (strip line) (lit "--") = false) lines ->
  Forall (fun line => ~ In nl line) lines ->
  sql_clean (join [nl] lines) = join [nl] lines.
Proof.
  intros K F. destruct lines as [|l ls]; [reflexivity|].
  unfold sql_clean, sql_lines.
  rewrite split_join; [| discriminate | exact F].
  rewrite filter_keeps_all; [reflexivity|].
  revert K. apply Forall_impl. intros line ->. reflexivity.
Qed.

(** A text in which no line, stripped of the white space around it,
    starts with [--] passes through the filter unchanged: the lines are
    joined again with the line breaks they were split at.  A comment after
    a statement on the same line does not make the line a comment line. *)
Theorem sql_clean_keeps_comment_free_text (sql_content : str) :
  Forall (fun line => startswith (strip line) (lit "--") = false)
         (split nl sql_content) ->
  sql_clean sql_content = sql_content.
Proof.
  intros H. unfold sql_clean, sql_lines.
  rewrite filter_keeps_all; [apply join_split|].
  revert H. apply Forall_impl. intros line ->. reflexivity.
Qed.

(** Whatever the text, no line of the filtered text starts with [--]
    once stripped: the filter removes every comment line, and joining the
    lines kept makes no new one. *)
Theorem sql_clean_has_no_comment_line (sql_content : str) :
  Forall (fun line => startswith (strip line) (lit "--") = false)
         (split nl (sql_clean sql_content)).
Proof.
  unfold sql_clean.
  pose proof (sql_lines_comment_free sql_content) as K.
  pose proof (sql_lines_no_break sql_content) as F.
  destruct (sql_lines sql_content) as [|l ls].
  - repeat constructor.
  - rewrite split_join; [exact K | discriminate | exact F].
Qed.

(** Filtering a filtered text changes nothing. *)
Theorem sql_clean_idempotent (sql_content : str) :
  sql_clean (sql_clean sql_content) = sql_clean sql_content.
Proof.
  unfold sql_clean at 2 3. apply joined_lines_are_kept.
  - apply sql_lines_comment_free.
  - apply sql_lines_no_break.
Qed.

Lemma sql_clean_keeps_comment_free_text_witness :
  Forall (fun line => startswith (strip line) (lit "--") = false)
         (split nl (lit "SELECT 1;
  SELECT 2; -- trailing"))
  /\ sql_clean (lit "SELECT 1;
  SELECT 2; -- trailing")
     = lit "SELECT 1;
  SELECT 2; -- trailing".
Proof.
  assert (H : Forall (fun line => startswith (strip line) (lit "--") = false)
                     (split nl (lit "SELECT 1;
  SELECT 2; -- trailing")))
    by (vm_compute; repeat constructor).
  split; [exact H|].
  exact (@sql_clean_keeps_comment_free_text _ H).
Defined.

End SqlCleanFacts.

(* ================================================================== *)
(** ** Properties of fix-auth.py *)

Module FixAuthFacts.

Import FixAuth.

(** *** The matcher decides the match relation *)

Lemma bt_spaces_unfold (p : list item) (x : N) (s : str) (pos : nat)
    (opened : list (nat * nat)) (sp : spans) :
  bt (Spaces :: p) (x :: s) pos opened sp
  = if isspace x then
      match bt (Spaces :: p) s (S pos) opened sp with
      | Some r => Some r
      | None => bt p s (S pos) opened sp
      end
    else None.
Proof. reflexivity. Qed.

Lemma bt_spaces_nil (p : list item) (pos : nat) (opened : list (nat * nat))
    (sp : spans) :
  bt (Spaces :: p) [] pos opened sp = None.
Proof. reflexivity. Qed.

Lemma run_spaces_cons (x : N) (p : list item) (s : str) (pos : nat)
    (opened : list (nat * nat)) (sp sp' : spans) (rest : str) :
  isspace x = true ->
  run (Spaces :: p) s (S pos) opened sp sp' rest ->
  run (Spaces :: p) (x :: s) pos opened sp sp' rest.
Proof.
  intros Hx H. inversion H as [| |V ? ? ? ? ? ? ? Hne Hb Hr| |]; subst.
  change (x :: V ++ s0) with ((x :: V) ++ s0).
  apply run_spaces.
  - discriminate.
  - constructor; assumption.
  - cbn [List.length]. replace (pos + S (List.length V))
      with (S pos + List.length V) by lia. exact Hr.
Qed.

Lemma bt_sound (p : list item) :
  forall s pos opened sp sp' rest,
    bt p s pos opened sp = Some (sp', rest) ->
    run p s pos opened sp sp' rest.
Proof.
  induction p as [|[c| |g|g] p IH]; intros s pos opened sp sp' rest H.
  - cbn in H. injection H as <- <-. constructor.
  - destruct s as [|x s]; cbn in H; [discriminate|].
    destruct (x =? c)%N eqn:E; [|discriminate].
    apply N.eqb_eq in E. subst x. constructor. auto.
  - revert pos H. induction s as [|x s IHs]; intros pos H.
    + rewrite bt_spaces_nil in H. discriminate.
    + rewrite bt_spaces_unfold in H.
      destruct (isspace x) eqn:Hx; [|discriminate].
      destruct (bt (Spaces :: p) s (S pos) opened sp) as [r|] eqn:E.
      * injection H as ->. apply run_spaces_cons; auto.
      * change (x :: s) with ([x] ++ s). apply run_spaces.
        -- discriminate.
        -- repeat constructor. exact Hx.
        -- cbn [List.length]. replace (pos + 1) with (S pos) by lia. auto.
  - cbn in H. constructor. auto.
  - cbn in H. destruct (assoc g opened) as [start|] eqn:E; [|discriminate].
    econstructor; eauto.
Qed.

Lemma bt_spaces_complete (p : list item) (V : str) :
  V <> [] -> blank V ->
  forall s pos opened sp,
    bt p s (pos + List.length V) opened sp <> None ->
    bt (Spaces :: p) (V ++ s) pos opened sp <> None.
Proof.
  induction V as [|x V IH]; [congruence|].
  intros _ Hb s pos opened sp H.
  inversion Hb as [|? ? Hx Hb']; subst.
  cbn [app]. rewrite bt_spaces_unfold, Hx.
  destruct V as [|y V].
  - cbn [app]. destruct (bt (Spaces :: p) s (S pos) opened sp); [discriminate|].
    cbn [List.length] in H. replace (pos + 1) with (S pos) in H by lia.
    exact H.
  - assert (E : bt (Spaces :: p) ((y :: V) ++ s) (S pos) opened sp <> None).
    { apply IH; [discriminate | exact Hb' |].
      cbn [List.length] in *.
      replace (S pos + S (List.length V))
        with (pos + S (S (List.length V))) by lia. exact H. }
    destruct (bt (Spaces :: p) ((y :: V) ++ s) (S pos) opened sp);
      [discriminate | congruence].
Qed.

Lemma bt_complete (p : list item) (s : str) (pos : nat)
    (opened : list (nat * nat)) (sp sp' : spans) (rest : str) :
  run p s pos opened sp sp' rest -> bt p s pos opened sp <> None.
Proof.
  induction 1 as [ | c p s pos opened sp sp' rest _ IH
                   | V p s pos opened sp sp' rest Hne Hb _ IH
                   | g p s pos opened sp sp' rest _ IH
                   | g start p s pos opened sp sp' rest Hg _ IH ].
  - discriminate.
  - cbn. rewrite N.eqb_refl. exact IH.
  - apply bt_spaces_complete; assumption.
  - exact IH.
  - cbn. rewrite Hg. exact IH.
Qed.

(** *** Matches of [old_pattern] *)

Lemma run_end_inv (s : str) (pos : nat) (opened : list (nat * nat))
    (sp sp' : spans) (rest : str) :
  run [] s pos opened sp sp' rest -> sp' = sp /\ rest = s.
Proof. inversion 1; auto. Qed.

Lemma run_open_inv (g : nat) (p : list item) (s : str) (pos : nat)
    (opened : list (nat * nat)) (sp sp' : spans) (rest : str) :
  run (Open g :: p) s pos opened sp sp' rest ->
  run p s pos ((g, pos) :: opened) sp sp' rest.
Proof. inversion 1; auto. Qed.

Lemma run_close_inv (g : nat) (p : list item) (s : str) (pos : nat)
    (opened : list (nat * nat)) (sp sp' : spans) (rest : str) :
  run (Close g :: p) s pos opened sp sp' rest ->
  exists start,
    assoc g opened = Some start
    /\ run p s pos opened ((g, (start, pos)) :: sp) sp' rest.
Proof. inversion 1; eauto. Qed.

Lemma run_spaces_inv (p : list item) (s : str) (pos : nat)
    (opened : list (nat * nat)) (sp sp' : spans) (rest : str) :
  run (Spaces :: p) s pos opened sp sp' rest ->
  exists V s',
    s = V ++ s' /\ V <> [] /\ blank V
    /\ run p s' (pos + List.length V) opened sp sp' rest.
Proof. inversion 1; subst; eauto 8. Qed.

Lemma run_lits_inv (l : str) (p : list item) :
  forall s pos opened sp sp' rest,
    run (map Lit l ++ p) s pos opened sp sp' rest ->
    exists s',
      s = l ++ s' /\ run p s' (pos + List.length l) opened sp sp' rest.
Proof.
  induction l as [|c l IH]; cbn [map app List.length];
    intros s pos opened sp sp' rest H.
  - exists s. rewrite Nat.add_0_r. auto.
  - inversion H as [|? ? s0 ? ? ? ? ? Hr| | |]; subst.
    destruct (IH _ _ _ _ _ _ Hr) as (s' & -> & Hr').
    exists s'. split; [reflexivity|].
    replace (pos + S (List.length l)) with (S pos + List.length l) by lia.
    exact Hr'.
Qed.

Lemma run_lits (l : str) (p : list item) :
  forall s pos opened sp sp' rest,
    run p s (pos + List.length l) opened sp sp' rest ->
    run (map Lit l ++ p) (l ++ s) pos opened sp sp' rest.
Proof.
  induction l as [|c l IH]; cbn [map app List.length];
    intros s pos opened sp sp' rest H.
  - rewrite Nat.add_0_r in H. exact H.
  - constructor. apply IH.
    replace (S pos + List.length l) with (pos + S (List.length l)) by lia.
    exact H.
Qed.

Lemma blank_app (V W : str) : blank V -> blank W -> blank (V ++ W).
Proof. intros; apply Forall_app; auto. Qed.

Lemma match_at_old_items (s : str) (sp : spans) (rest : str) :
  match_at old_items s = Some (sp, rest) ->
  exists V1 V2 V3 V4 V5 V6,
    (blank V1 /\ blank V2 /\ blank V3 /\ blank V4 /\ blank V5 /\ blank V6)
    /\ (V1 <> [] /\ 2 <= List.length V2 /\ V3 <> [] /\ V4 <> []
        /\ V5 <> [] /\ V6 <> [])
    /\ s = shape V1 V2 V3 V4 V5 V6 ++ rest
    /\ first_group sp s = V1 ++ L1.
Proof.
  intros H. apply bt_sound in H. unfold old_items in H.
  apply run_open_inv in H.
  apply run_spaces_inv in H. destruct H as (V1 & s1 & -> & N1 & B1 & H).
  apply run_lits_inv in H. destruct H as (s2 & -> & H).
  apply run_close_inv in H. destruct H as (start & Hs & H).
  cbn in Hs. injection Hs as <-.
  apply run_spaces_inv in H. destruct H as (Va & s3 & -> & Na & Ba & H).
  apply run_open_inv in H.
  apply run_spaces_inv in H. destruct H as (Vb & s4 & -> & Nb & Bb & H).
  apply run_lits_inv in H. destruct H as (s5 & -> & H).
  apply run_spaces_inv in H. destruct H as (V3 & s6 & -> & N3 & B3 & H).
  apply run_lits_inv in H. destruct H as (s7 & -> & H).
  apply run_spaces_inv in H. destruct H as (V4 & s8 & -> & N4 & B4 & H).
  apply run_lits_inv in H. destruct H as (s9 & -> & H).
  apply run_spaces_inv in H. destruct H as (V5 & s10 & -> & N5 & B5 & H).
  apply run_lits_inv in H. destruct H as (s11 & -> & H).
  apply run_spaces_inv in H. destruct H as (V6 & s12 & -> & N6 & B6 & H).
  apply run_lits_inv in H. destruct H as (s13 & -> & H).
  apply run_close_inv in H. destruct H as (start & Hs & H).
  apply run_end_inv in H. destruct H as (-> & ->).
  exists V1, (Va ++ Vb), V3, V4, V5, V6.
  split; [|split; [|split]].
  - repeat split; auto using blank_app.
  - repeat split; auto. rewrite length_app.
    destruct Va; [congruence|]. destruct Vb; [congruence|]. cbn. lia.
  - unfold shape. rewrite <- !app_assoc. reflexivity.
  - unfold first_group. cbn [assoc Nat.eqb]. cbn [skipn].
    rewrite Nat.sub_0_r, Nat.add_0_l, <- length_app.
    rewrite (app_assoc V1 L1).
    rewrite firstn_app, Nat.sub_diag, firstn_all. cbn [firstn]. apply app_nil_r.
Qed.

Lemma hit_match_at (s : str) : hit s -> match_at old_items s <> None.
Proof.
  intros [V1 V2 V3 V4 V5 V6 rest B1 B2 B3 B4 B5 B6 N1 N2 N3 N4 N5 N6 ->].
  destruct V2 as [|a [|b V2]]; cbn in N2; try lia.
  inversion B2 as [|? ? Ha B2']; subst.
  assert (R : exists sp, run old_items
            (shape V1 (a :: b :: V2) V3 V4 V5 V6 ++ rest) 0 [] [] sp rest).
  { eexists. unfold old_items, shape. rewrite <- !app_assoc.
    apply run_open. apply run_spaces; [assumption..|].
    apply run_lits. eapply run_close; [reflexivity|].
    change ((a :: b :: V2) ++ ?x) with ([a] ++ (b :: V2) ++ x).
    apply run_spaces; [discriminate | repeat constructor; assumption |].
    apply run_open. apply run_spaces; [discriminate | assumption |].
    apply run_lits. apply run_spaces; [assumption..|].
    apply run_lits. apply run_spaces; [assumption..|].
    apply run_lits. apply run_spaces; [assumption..|].
    apply run_lits. apply run_spaces; [assumption..|].
    apply run_lits. eapply run_close; [reflexivity|]. apply run_end. }
  destruct R as (sp & R). exact (bt_complete R).
Qed.

Lemma match_at_hit (s : str) : match_at old_items s <> None -> hit s.
Proof.
  destruct (match_at old_items s) as [[sp rest]|] eqn:E; [|congruence].
  intros _. apply match_at_old_items in E.
  destruct E as (V1 & V2 & V3 & V4 & V5 & V6 & B & N & -> & _).
  econstructor; try reflexivity; tauto.
Qed.

(** *** Where a match can lie

    An anchor is a white space character followed by the letter [c].
    Inside a match there are two: where the first text starts and where
    the second starts. *)

Lemma blank_no_c (V : str) : blank V -> forall T, V <> 99%N :: T.
Proof.
  intros B T ->. inversion B as [|? ? Hc _]. discriminate Hc.
Qed.




(** *** What the substitution leaves behind *)

Lemma new_tail_split :
  new_tail = firstn 10 new_tail ++ 47%N :: skipn 11 new_tail.
Proof. reflexivity. Qed.

Lemma blank_forallb (V : str) : forallb isspace V = true -> blank V.
Proof. intros H. apply Forall_forall. apply forallb_forall. exact H. Qed.

Lemma blank_prefix (V : str) :
  blank V ->
  forall W a A b B,
    blank W -> isspace a = false -> isspace b = false ->
    V ++ a :: A = W ++ b :: B -> a = b.
Proof.
  induction V as [|v V IH]; intros BV W a A b B BW Ha Hb H.
  - destruct W as [|w W]; cbn [app] in H; injection H as -> _.
    + reflexivity.
    + inversion BW as [|? ? Hw _]. congruence.
  - inversion BV as [|? ? Hv BV']; subst.
    destruct W as [|w W]; cbn [app] in H; injection H as -> H.
    + congruence.
    + inversion BW as [|? ? _ BW']; subst. eauto.
Qed.

(** After the first group the replacement goes on with a comment, not
    with the second text of the pattern. *)
Lemma new_tail_is_not_matched (V A y : str) :
  blank V -> V ++ L2 ++ A <> new_tail ++ y.
Proof.
  intros B H. rewrite new_tail_split, <- app_assoc in H.
  change (L2 ++ A) with (99%N :: tl L2 ++ A) in H. cbn [app] in H.
  assert (E : 99%N = 47%N).
  { eapply (@blank_prefix _ B); [| | |exact H]; try reflexivity.
    apply blank_forallb. reflexivity. }
  discriminate E.
Qed.










(** *** The search and the substitution loop *)

Lemma search_none (p : list item) (s : str) :
  search p s = None -> forall i, match_at p (skipn i s) = None.
Proof.
  induction s as [|c s IH]; cbn [search]; intros H i.
  - rewrite skipn_nil. destruct (match_at p []) as [[sp rest]|];
      [discriminate | reflexivity].
  - destruct (match_at p (c :: s)) as [[sp rest]|] eqn:E; [discriminate|].
    destruct (search p s) as [[[[pre m] sp] rest]|] eqn:E'; [discriminate|].
    destruct i as [|i]; [exact E | apply IH; reflexivity].
Qed.

Lemma none_search (p : list item) (s : str) :
  (forall i, match_at p (skipn i s) = None) -> search p s = None.
Proof.
  induction s as [|c s IH]; cbn [search]; intros H.
  - rewrite (H 0 : match_at p [] = None). reflexivity.
  - rewrite (H 0 : match_at p (c :: s) = None).
    rewrite IH; [reflexivity|]. intros i. exact (H (S i)).
Qed.

Lemma search_some (p : list item) (s : str) :
  forall pre m sp rest,
    search p s = Some (pre, m, sp, rest) ->
    s = pre ++ m
    /\ match_at p m = Some (sp, rest)
    /\ (forall i, i < List.length pre -> match_at p (skipn i s) = None).
Proof.
  induction s as [|c s IH]; cbn [search]; intros pre m sp rest H.
  - destruct (match_at p []) as [[sp' rest']|] eqn:E; [|discriminate].
    injection H as <- <- <- <-. repeat split; auto. cbn. lia.
  - destruct (match_at p (c :: s)) as [[sp' rest']|] eqn:E.
    + injection H as <- <- <- <-. repeat split; auto. cbn. lia.
    + destruct (search p s) as [[[[pre' m'] sp'] rest']|] eqn:E';
        [|discriminate].
      injection H as <- <- <- <-.
      destruct (IH _ _ _ _ eq_refl) as (-> & Hm & Hl).
      repeat split; auto.
      intros [|i] Hi; [exact E|]. cbn [skipn]. apply Hl.
      cbn [List.length] in Hi. lia.
Qed.

Lemma expand_new_pieces (m : str) (sp : spans) :
  expand new_pieces m sp = first_group sp m ++ new_tail.
Proof.
  unfold new_pieces, first_group. cbn [expand].
  assert (T : forall t, expand (map Text t) m sp = t).
  { induction t as [|c t IH]; cbn [map expand]; congruence. }
  rewrite T. destruct (assoc 1 sp) as [[a b]|]; reflexivity.
Qed.

Lemma shape_length (V1 V2 V3 V4 V5 V6 : str) :
  V1 <> [] -> 0 < List.length (shape V1 V2 V3 V4 V5 V6).
Proof.
  intros N. unfold shape. rewrite length_app.
  destruct V1; [congruence | cbn; lia].
Qed.

(** One step of the loop on a subject with a match: the text before the
    leftmost match stays, the match gives way to its first group and the
    new code, and the loop goes on with what follows the match. *)
Lemma search_old_items (s pre m : str) (sp : spans) (rest : str) :
  search old_items s = Some (pre, m, sp, rest) ->
  exists V1 V2 V3 V4 V5 V6,
    blank V1 /\ V1 <> []
    /\ s = pre ++ shape V1 V2 V3 V4 V5 V6 ++ rest
    /\ expand new_pieces m sp = V1 ++ L1 ++ new_tail
    /\ (forall i, i < List.length pre -> ~ hit (skipn i s)).
Proof.
  intros H. apply search_some in H. destruct H as (-> & Hm & Hl).
  apply match_at_old_items in Hm.
  destruct Hm as (V1 & V2 & V3 & V4 & V5 & V6 & B & N & -> & G).
  exists V1, V2, V3, V4, V5, V6.
  repeat split; try tauto.
  - rewrite expand_new_pieces, G, <- app_assoc. reflexivity.
  - intros i Hi Hh. apply hit_match_at in Hh. apply Hh, Hl, Hi.
Qed.


Lemma sub_loop_fixed (s : str) :
  nohit s -> forall fuel, sub_loop fuel old_items new_pieces s = s.
Proof.
  intros Hs [|fuel]; [reflexivity|]. cbn [sub_loop].
  rewrite none_search; [reflexivity|].
  intros i. destruct (match_at old_items (skipn i s)) eqn:E; [|reflexivity].
  exfalso. apply (Hs i). apply match_at_hit. congruence.
Qed.

(** The loop never runs out of fuel: any amount above the length of the
    subject gives the same text. *)
Lemma sub_loop_fuel (f1 : nat) :
  forall f2 s,
    List.length s < f1 -> List.length s < f2 ->
    sub_loop f1 old_items new_pieces s = sub_loop f2 old_items new_pieces s.
Proof.
  induction f1 as [|f1 IH]; intros [|f2] s H1 H2; try lia.
  cbn [sub_loop].
  destruct (search old_items s) as [[[[pre m] sp] rest]|] eqn:E;
    [|reflexivity].
  destruct (@search_old_items _ _ _ _ _ E)
    as (V1 & V2 & V3 & V4 & V5 & V6 & _ & N1 & Es & _ & _).
  rewrite Es, !length_app in H1, H2.
  pose proof (@shape_length V1 V2 V3 V4 V5 V6 N1).
  rewrite (IH f2 rest) by lia. reflexivity.
Qed.

(** *** The script *)

Lemma parse_old_pattern : parse old_pattern 1 [] = Some old_items.
Proof. vm_compute. reflexivity. Qed.

Lemma parse_new_code : parse_template new_code = Some new_pieces.
Proof. vm_compute. reflexivity. Qed.

Lemma re_sub_script (content : str) :
  re_sub old_pattern new_code content
  = Some (sub_loop (S (List.length content)) old_items new_pieces content).
Proof.
  unfold re_sub. rewrite parse_old_pattern, parse_new_code.
  replace (existsb consumes old_items
           && forallb (refers_within (groups old_items)) new_pieces)
    with true by (vm_compute; reflexivity).
  reflexivity.
Qed.

Lemma matches_somewhere_false (s : str) :
  matches_somewhere old_pattern s = false <-> nohit s.
Proof.
  unfold matches_somewhere. rewrite parse_old_pattern. split.
  - intros H i Hh. apply hit_match_at in Hh. apply Hh. apply search_none.
    destruct (search old_items s); [discriminate | reflexivity].
  - intros Hs. rewrite none_search; [reflexivity|].
    intros i. destruct (match_at old_items (skipn i s)) eqn:E; [|reflexivity].
    exfalso. apply (Hs i). apply match_at_hit. congruence.
Qed.


(** The sample file has the block; one run gives what Python gives, and a
    second run gives the same again. *)
Lemma sample_file_is_patched_once :
  matches_somewhere old_pattern sample_ts = true
  /\ fix_auth (Some sample_ts)
     = {| file := Some sample_ts_patched; stdout := [success_message];
          status := 0 |}
  /\ fix_auth (Some sample_ts_patched)
     = {| file := Some sample_ts_patched; stdout := [success_message];
          status := 0 |}.
Proof. repeat split; vm_compute; reflexivity. Qed.

(** *** A match at a given place is unique *)

Lemma blank_run_unique (V : str) :
  blank V ->
  forall W L A B,
    blank W -> starts_text L = true ->
    V ++ L ++ A = W ++ L ++ B -> V = W /\ A = B.
Proof.
  induction V as [|v V IH]; intros BV W L A B BW HL H.
  - destruct W as [|w W]; cbn [app] in H.
    + split; [reflexivity | exact (app_inv_head _ _ _ H)].
    + destruct L as [|c L]; [discriminate HL|].
      cbn [app] in H. injection H as -> _.
      inversion BW as [|? ? Hw _]. cbn [starts_text] in HL.
      rewrite Hw in HL. discriminate HL.
  - inversion BV as [|? ? Hv BV']; subst.
    destruct W as [|w W]; cbn [app] in H.
    + destruct L as [|c L]; [discriminate HL|].
      cbn [app] in H. injection H as <- _.
      cbn [starts_text] in HL. rewrite Hv in HL. discriminate HL.
    + injection H as -> H. inversion BW as [|? ? _ BW']; subst.
      destruct (IH BV' W L A B BW' HL H) as (-> & ->). split; reflexivity.
Qed.

Lemma shape_unique (V1 V2 V3 V4 V5 V6 rest W1 W2 W3 W4 W5 W6 rest' : str) :
  blank V1 -> blank V2 -> blank V3 -> blank V4 -> blank V5 -> blank V6 ->
  blank W1 -> blank W2 -> blank W3 -> blank W4 -> blank W5 -> blank W6 ->
  shape V1 V2 V3 V4 V5 V6 ++ rest = shape W1 W2 W3 W4 W5 W6 ++ rest' ->
  V1 = W1 /\ V2 = W2 /\ rest = rest'.
Proof.
  intros B1 B2 B3 B4 B5 B6 C1 C2 C3 C4 C5 C6 H.
  unfold shape in H. rewrite <- !app_assoc in H.
  apply (@blank_run_unique _ B1 _ L1 _ _ C1 eq_refl) in H.
  destruct H as (-> & H).
  apply (@blank_run_unique _ B2 _ L2 _ _ C2 eq_refl) in H.
  destruct H as (-> & H).
  apply (@blank_run_unique _ B3 _ L3 _ _ C3 eq_refl) in H.
  destruct H as (-> & H).
  apply (@blank_run_unique _ B4 _ L4 _ _ C4 eq_refl) in H.
  destruct H as (-> & H).
  apply (@blank_run_unique _ B5 _ L5 _ _ C5 eq_refl) in H.
  destruct H as (-> & H).
  apply (@blank_run_unique _ B6 _ L6 _ _ C6 eq_refl) in H.
  destruct H as (-> & H).
  repeat split; try reflexivity. exact H.
Qed.

(** One round of the loop, with all that the match found is known to
    be. *)
Lemma search_shape (s pre m : str) (sp : spans) (rest : str) :
  search old_items s = Some (pre, m, sp, rest) ->
  exists V1 V2 V3 V4 V5 V6,
    (blank V1 /\ blank V2 /\ blank V3 /\ blank V4 /\ blank V5 /\ blank V6)
    /\ V1 <> []
    /\ s = pre ++ shape V1 V2 V3 V4 V5 V6 ++ rest
    /\ expand new_pieces m sp = V1 ++ L1 ++ new_tail
    /\ (forall i, i < List.length pre -> match_at old_items (skipn i s) = None).
Proof.
  intros H. apply search_some in H. destruct H as (-> & Hm & Hl).
  apply match_at_old_items in Hm.
  destruct Hm as (V1 & V2 & V3 & V4 & V5 & V6 & B & N & -> & G).
  exists V1, V2, V3, V4, V5, V6.
  repeat split; try tauto.
  rewrite expand_new_pieces, G, <- app_assoc. reflexivity.
Qed.

(** The search finds the leftmost place with a match. *)
Lemma search_leftmost (P m : str) :
  (forall i, i < List.length P -> match_at old_items (skipn i (P ++ m)) = None) ->
  forall sp rest,
    match_at old_items m = Some (sp, rest) ->
    search old_items (P ++ m) = Some (P, m, sp, rest).
Proof.
  induction P as [|c P IH]; intros Hl sp rest Hm.
  - cbn [app]. destruct m; cbn [search]; rewrite Hm; reflexivity.
  - cbn [app search].
    rewrite (Hl 0 ltac:(cbn; lia) : match_at old_items (c :: P ++ m) = None).
    rewrite (IH (fun i Hi => Hl (S i) ltac:(cbn; lia)) sp rest Hm).
    reflexivity.
Qed.

Lemma not_hit_no_match (s : str) :
  ~ hit s -> match_at old_items s = None.
Proof.
  intros Hn. destruct (match_at old_items s) eqn:E; [|reflexivity].
  exfalso. apply Hn, match_at_hit. congruence.
Qed.

Lemma sub_loop_step (fuel : nat) (p : list item) (t : list piece) (s : str) :
  sub_loop (S fuel) p t s
  = match search p s with
    | None => s
    | Some (pre, m, sp, rest) => pre ++ expand t m sp ++ sub_loop fuel p t rest
    end.
Proof. reflexivity. Qed.

Lemma no_match_before_spec (n : nat) (s : str) :
  no_match_before n s = true ->
  forall i, i < n -> ~ hit (skipn i s).
Proof.
  unfold no_match_before. intros H i Hi Hh.
  rewrite forallb_forall in H.
  specialize (H i ltac:(apply in_seq; lia)).
  apply hit_match_at in Hh.
  destruct (match_at old_items (skipn i s)); [discriminate | congruence].
Qed.

(** The pattern has a match in a text exactly when the text holds a
    block somewhere: the six texts of the pattern in their order, each
    after a run of white space, the run before the second text of two
    characters or more. *)
Theorem pattern_matches_exactly_the_blocks (s : str) :
  matches_somewhere old_pattern s = true
  <-> exists P m, s = P ++ m /\ hit m.
Proof.
  split.
  - unfold matches_somewhere. rewrite parse_old_pattern.
    destruct (search old_items s) as [[[[pre m] sp] rest]|] eqn:E;
      [intros _ | discriminate].
    apply search_some in E. destruct E as (Es & Em & _).
    exists pre, m. split; [exact Es|].
    apply match_at_hit. congruence.
  - intros (P & m & -> & Hh).
    destruct (matches_somewhere old_pattern (P ++ m)) eqn:E; [reflexivity|].
    exfalso. apply matches_somewhere_false in E.
    apply (E (List.length P)).
    rewrite skipn_app, skipn_all, Nat.sub_diag. exact Hh.
Qed.

(** The file is rewritten with another text exactly when the pattern has
    a match in it; the message and the status are the same either way. *)
Theorem file_changes_iff_pattern_matches (content : str) :
  file (fix_auth (Some content)) = Some content
  <-> matches_somewhere old_pattern content = false.
Proof.
  split.
  - unfold fix_auth. rewrite re_sub_script. cbn [file].
    rewrite sub_loop_step.
    unfold matches_somewhere. rewrite parse_old_pattern.
    destruct (search old_items content) as [[[[pre m] sp] rest]|] eqn:E;
      [|reflexivity].
    destruct (search_shape _ E)
      as (V1 & V2 & V3 & V4 & V5 & V6 & B & _ & Es & Ex & _).
    rewrite Ex. intros H. exfalso.
    assert (H' : pre ++ (V1 ++ L1 ++ new_tail)
                 ++ sub_loop (List.length content) old_items new_pieces rest
                 = content) by congruence.
    clear H. rewrite Es in H' at 2. unfold shape in H'.
    rewrite <- !app_assoc in H'.
    do 3 apply app_inv_head in H'.
    symmetry in H'. revert H'. apply new_tail_is_not_matched. tauto.
  - intros H.
    apply matches_somewhere_false in H.
    unfold fix_auth. rewrite re_sub_script. cbn [file].
    rewrite sub_loop_fixed by exact H. reflexivity.
Qed.


(** The leftmost block is replaced by its first statement, with the white
    space before it, and the new code; the text before the block stays,
    and the text after the block is what a run on that text alone
    writes. *)
Theorem leftmost_block_is_replaced (P V1 V2 V3 V4 V5 V6 rest : str) :
  blank V1 -> blank V2 -> blank V3 -> blank V4 -> blank V5 -> blank V6 ->
  V1 <> [] -> 2 <= List.length V2 -> V3 <> [] -> V4 <> [] -> V5 <> [] ->
  V6 <> [] ->
  (forall i, i < List.length P ->
             ~ hit (skipn i (P ++ shape V1 V2 V3 V4 V5 V6 ++ rest))) ->
  exists rest',
    file (fix_auth (Some rest)) = Some rest'
    /\ file (fix_auth (Some (P ++ shape V1 V2 V3 V4 V5 V6 ++ rest)))
       = Some (P ++ V1 ++ L1 ++ new_tail ++ rest').
Proof.
  intros B1 B2 B3 B4 B5 B6 N1 N2 N3 N4 N5 N6 Hl.
  exists (sub_loop (S (List.length rest)) old_items new_pieces rest).
  unfold fix_auth. rewrite !re_sub_script. cbn [file].
  split; [reflexivity|]. f_equal.
  set (m := shape V1 V2 V3 V4 V5 V6 ++ rest) in *.
  assert (Hh : hit m)
    by (exact (@Hit m V1 V2 V3 V4 V5 V6 rest B1 B2 B3 B4 B5 B6
                 N1 N2 N3 N4 N5 N6 eq_refl)).
  apply hit_match_at in Hh.
  destruct (match_at old_items m) as [[sp r]|] eqn:E; [clear Hh|congruence].
  destruct (match_at_old_items _ E)
    as (W1 & W2 & W3 & W4 & W5 & W6 & C & _ & Em & G).
  assert (U : V1 = W1 /\ V2 = W2 /\ rest = r)
    by (apply (@shape_unique V1 V2 V3 V4 V5 V6 rest W1 W2 W3 W4 W5 W6 r);
        tauto).
  destruct U as (<- & _ & <-).
  rewrite sub_loop_step.
  rewrite (@search_leftmost P m
             (fun i Hi => not_hit_no_match (Hl i Hi)) sp rest E).
  rewrite expand_new_pieces, G, <- !app_assoc.
  do 4 f_equal. apply sub_loop_fuel; [|lia].
  subst m. rewrite !length_app.
  pose proof (@shape_length V1 V2 V3 V4 V5 V6 N1). lia.
Qed.

(** The pattern asks for two white space characters or more between the
    two statements: a block with fewer is not a match. *)
Theorem block_needs_two_white_spaces (V1 V2 V3 V4 V5 V6 rest : str) :
  blank V1 -> blank V2 -> blank V3 -> blank V4 -> blank V5 -> blank V6 ->
  List.length V2 < 2 ->
  match_at old_items (shape V1 V2 V3 V4 V5 V6 ++ rest) = None.
Proof.
  intros B1 B2 B3 B4 B5 B6 Hs.
  destruct (match_at old_items (shape V1 V2 V3 V4 V5 V6 ++ rest))
    as [[sp r]|] eqn:E; [exfalso|reflexivity].
  destruct (match_at_old_items _ E)
    as (W1 & W2 & W3 & W4 & W5 & W6 & C & N & Em & _).
  assert (U : V1 = W1 /\ V2 = W2 /\ rest = r)
    by (apply (@shape_unique V1 V2 V3 V4 V5 V6 rest W1 W2 W3 W4 W5 W6 r);
        tauto).
  destruct U as (_ & -> & _). lia.
Qed.

Lemma sample_ts_parts :
  sample_ts
  = sample_head
    ++ shape (indent 6) (nl :: indent 8) (indent 10) (indent 10) (indent 10)
             (indent 8)
    ++ sample_rest.
Proof. reflexivity. Qed.

Lemma leftmost_block_is_replaced_witness :
  exists rest',
    file (fix_auth (Some sample_rest)) = Some rest'
    /\ file (fix_auth
               (Some (sample_head
                      ++ shape (indent 6) (nl :: indent 8) (indent 10)
                               (indent 10) (indent 10) (indent 8)
                      ++ sample_rest)))
       = Some (sample_head ++ indent 6 ++ L1 ++ new_tail ++ rest').
Proof.
  apply leftmost_block_is_replaced;
    try (apply blank_forallb; reflexivity);
    try discriminate;
    try (cbn; lia).
  apply no_match_before_spec. vm_compute. reflexivity.
Defined.

Lemma block_needs_two_white_spaces_witness :
  match_at old_items
    (shape (indent 6) [nl] (indent 10) (indent 10) (indent 10) (indent 8)
     ++ sample_rest) = None.
Proof.
  apply block_needs_two_white_spaces;
    try (apply blank_forallb; reflexivity).
  cbn. lia.
Defined.

End FixAuthFacts.
